(** * Location-gated staff login: the [secure-login] and
      [resolve-access-request] edge functions

    A shallow embedding of the two serverless functions of
    [supabase/migrations/20250621021110_cool_butterfly.sql] together with the
    three tables they touch ([profiles], [allowed_ips], [access_requests]).

    Every handler is a finite program over the queries it awaits; one query is
    one atomic step on the store.  Running a program to completion gives the
    sequential behaviour of a request, stepping several programs in turn gives
    the behaviour of simultaneous requests.

    [login], [request_status_of] and [resolve] start where the request has
    been taken apart; [secure_login_serve] and [resolve_serve] put the CORS
    preflight, the method dispatch, the parsing of the body and of the
    headers, and the outer [catch] in front of them.

    Both functions create their client with the service-role key.  A query
    sent with that key passes row-level security: [perform] says what it
    does.  [secure-login] then signs the user in on that same client, and a
    client that holds a session sends the user's token instead: [refused]
    says what the policies of the migration make of such a query, and
    [serve_with] runs a request with the credential its client holds at each
    step.  [exec_with] runs a request with every query let through except
    where a fault plan says otherwise; a refusal looks to the handlers like
    an outage, so every run of [serve_with] is one of the runs of
    [exec_with], and what is proved for every fault plan holds of the
    functions as deployed. *)

From stdpp Require Import base option list strings gmap fin_maps infinite.
From Stdlib Require Import Ascii String.

Local Open Scope string_scope.

(** ** Rows and tables *)

Abbreviation uuid := string (only parsing).
Abbreviation timestamp := nat (only parsing).

(** [status text CHECK (status IN ('PENDING', 'APPROVED', 'DENIED'))] *)
Inductive request_status := PENDING | APPROVED | DENIED.

Global Instance request_status_eq_dec : EqDecision request_status.
Proof. solve_decision. Defined.

Definition status_text (s : request_status) : string :=
  match s with
  | PENDING => "PENDING"
  | APPROVED => "APPROVED"
  | DENIED => "DENIED"
  end.

(** [profiles], keyed by its primary key [id].  [role] stays the text column
    it is: the login function has a branch for a value that is neither
    ['ADMIN'] nor ['CS']. *)
Record profile_row := {
  full_name : string;
  role : string;
  is_active : bool
}.

(** [allowed_ips], keyed by the [UNIQUE NOT NULL] column [ip_address]. *)
Record allowed_ip_row := {
  aip_id : uuid;
  description : option string;
  created_by : option uuid;
  created_at : timestamp
}.

(** [access_requests], keyed by its primary key [id].  No constraint other
    than the key and the two foreign keys is declared on this table. *)
Record access_request_row := {
  profile_id : uuid;
  ip_address : string;
  status : request_status;
  requested_at : timestamp;
  resolved_at : option timestamp;
  resolved_by : option uuid
}.

(** ** The identity provider *)

Record auth_user := { user_id : uuid; user_email : string }.
Record auth_session := { access_token : string }.
Record auth_data := { data_user : auth_user; data_session : auth_session }.

(** Modelled from the spec: the identity store ([supabaseClient.auth]) is an
    external collaborator whose code is not part of the repository.  It
    "authenticates email/password pairs and returns a durable identity"; the
    handlers only read the outcome.  Both entry points are kept abstract, so
    every theorem below holds for every identity store. *)
Record identity_store := {
  signInWithPassword : string → string → option auth_data;
  getUser : string → option auth_user
}.

(** ** The store the two functions talk to *)

Record world := {
  auth : identity_store;
  profiles : gmap string profile_row;
  allowed_ips : gmap string allowed_ip_row;
  access_requests : gmap string access_request_row;
  clock : timestamp;
  console : list string
}.

Definition set_allowed_ips (m : gmap string allowed_ip_row) (w : world) : world :=
  {| auth := auth w; profiles := profiles w; allowed_ips := m;
     access_requests := access_requests w; clock := clock w;
     console := console w |}.

Definition set_access_requests (m : gmap string access_request_row) (w : world) : world :=
  {| auth := auth w; profiles := profiles w; allowed_ips := allowed_ips w;
     access_requests := m; clock := clock w; console := console w |}.

Definition set_profiles (m : gmap string profile_row) (w : world) : world :=
  {| auth := auth w; profiles := m; allowed_ips := allowed_ips w;
     access_requests := access_requests w; clock := clock w;
     console := console w |}.

Definition log_error (msg : string) (w : world) : world :=
  {| auth := auth w; profiles := profiles w; allowed_ips := allowed_ips w;
     access_requests := access_requests w; clock := clock w;
     console := console w ++ [msg] |}.

(** ** Query results *)

Inductive db_error :=
| NoRows              (* [.single()] on an empty result *)
| MultipleRows        (* [.single()] on more than one row *)
| UniqueViolation
| ForeignKeyViolation
| InvalidLogin
| Unavailable
| PolicyRecursion      (* a policy that selects from its own table *)
| RowSecurityViolation. (* a new row that no policy admits *)

Inductive result (A : Type) :=
| Ok (a : A)
| Err (e : db_error).
Arguments Ok {A} a.
Arguments Err {A} e.

(** [.single()]: exactly one row, otherwise an error and [data = null]. *)
Definition single {A} (rows : list A) : result A :=
  match rows with
  | [] => Err NoRows
  | [x] => Ok x
  | _ => Err MultipleRows
  end.

Definition of_lookup {A} (o : option A) : result A :=
  match o with
  | Some a => Ok a
  | None => Err NoRows
  end.

(** [select('role, full_name')] *)
Record profile_view := { pv_role : string; pv_full_name : string }.

Definition view_of (p : profile_row) : profile_view :=
  {| pv_role := role p; pv_full_name := full_name p |}.

(** ** The queries the two functions await *)

Inductive query : Type → Type :=
| AuthSignInWithPassword (email password : string) : query (result auth_data)
| AuthGetUser (jwt : string) : query (result auth_user)
| SelectProfile (id : uuid) : query (result profile_view)
| SelectProfileRole (id : uuid) : query (result string)
| SelectAllowedIp (ip : string) : query (result uuid)
| SelectPendingRequest (pid : uuid) (ip : string) :
    query (result (uuid * request_status))
| InsertAccessRequest (pid : uuid) (ip : string) : query (result uuid)
| SelectRequestStatus (id : uuid) :
    query (result (request_status * option timestamp))
| SelectRequest (id : uuid) : query (result (uuid * string * request_status))
| UpdateAccessRequest (id : uuid) (st : request_status)
    (at_time : timestamp) (resolver : uuid) : query (result unit)
| InsertAllowedIp (ip : string) (descr : string) (creator : uuid) :
    query (result unit)
| DateNow : query timestamp
| ConsoleError (msg : string) : query unit.

(** [.eq('profile_id', pid).eq('ip_address', ip).eq('status', 'PENDING')] *)
Definition pending_for (pid : uuid) (ip : string)
    (kr : string * access_request_row) : Prop :=
  profile_id kr.2 = pid ∧ ip_address kr.2 = ip ∧ status kr.2 = PENDING.

Global Instance pending_for_dec pid ip kr : Decision (pending_for pid ip kr).
Proof. unfold pending_for. apply _. Defined.

Definition pending_rows (pid : uuid) (ip : string) (w : world) :
    gmap string access_request_row :=
  filter (pending_for pid ip) (access_requests w).

Definition new_request (pid : uuid) (ip : string) (now : timestamp) :
    access_request_row :=
  {| profile_id := pid; ip_address := ip; status := PENDING;
     requested_at := now; resolved_at := None; resolved_by := None |}.

Definition resolve_row (st : request_status) (now : timestamp) (by_id : uuid)
    (r : access_request_row) : access_request_row :=
  {| profile_id := profile_id r; ip_address := ip_address r; status := st;
     requested_at := requested_at r; resolved_at := Some now;
     resolved_by := Some by_id |}.

(** [uuid_generate_v4()]: a key that is not in the table yet. *)
Definition fresh_request_id (w : world) : uuid :=
  fresh (dom (access_requests w)).

Definition fresh_allowed_ip_id (w : world) : uuid :=
  fresh ((λ kr : string * allowed_ip_row, aip_id kr.2) <$>
         map_to_list (allowed_ips w)).

(** One query sent with the service-role key, executed atomically on the
    store: no row-level policy applies.  The request's id is the uuid that
    the [id] column holds, so [.eq('id', id)] is a lookup by key; how a text
    names a uuid is the business of [status_by_text] and [resolve_by_text]. *)
Definition perform {X} (q : query X) (w : world) : X * world :=
  match q in query T return T * world with
  | AuthSignInWithPassword email password =>
      (match signInWithPassword (auth w) email password with
       | Some d => Ok d
       | None => Err InvalidLogin
       end, w)
  | AuthGetUser jwt =>
      (match getUser (auth w) jwt with
       | Some u => Ok u
       | None => Err InvalidLogin
       end, w)
  | SelectProfile id => (of_lookup (view_of <$> profiles w !! id), w)
  | SelectProfileRole id => (of_lookup (role <$> profiles w !! id), w)
  | SelectAllowedIp ip => (of_lookup (aip_id <$> allowed_ips w !! ip), w)
  | SelectPendingRequest pid ip =>
      (single ((λ kr : string * access_request_row, (kr.1, status kr.2)) <$>
               map_to_list (pending_rows pid ip w)), w)
  | InsertAccessRequest pid ip =>
      match profiles w !! pid with
      | None => (Err ForeignKeyViolation, w)
      | Some _ =>
          let id := fresh_request_id w in
          (Ok id,
           set_access_requests
             (<[id := new_request pid ip (clock w)]> (access_requests w)) w)
      end
  | SelectRequestStatus id =>
      (of_lookup ((λ r, (status r, resolved_at r)) <$> access_requests w !! id),
       w)
  | SelectRequest id =>
      (of_lookup ((λ r, (profile_id r, ip_address r, status r)) <$>
                  access_requests w !! id), w)
  | UpdateAccessRequest id st now by_id =>
      match access_requests w !! id, profiles w !! by_id with
      | None, _ => (Ok (), w)
      | Some _, None => (Err ForeignKeyViolation, w)
      | Some _, Some _ =>
          (Ok (),
           set_access_requests
             (alter (resolve_row st now by_id) id (access_requests w)) w)
      end
  | InsertAllowedIp ip descr creator =>
      match profiles w !! creator, allowed_ips w !! ip with
      | None, _ => (Err ForeignKeyViolation, w)
      | Some _, Some _ => (Err UniqueViolation, w)
      | Some _, None =>
          (Ok (),
           set_allowed_ips
             (<[ip := {| aip_id := fresh_allowed_ip_id w;
                         description := Some descr;
                         created_by := Some creator;
                         created_at := clock w |}]> (allowed_ips w)) w)
      end
  | DateNow => (clock w, w)
  | ConsoleError msg => ((), log_error msg w)
  end.

(** What a query answers when the store or the identity provider cannot be
    reached; the two local effects cannot fail. *)
Definition outage {X} (q : query X) : option X :=
  match q in query T return option T with
  | DateNow => None
  | ConsoleError _ => None
  | AuthSignInWithPassword _ _ => Some (Err Unavailable)
  | AuthGetUser _ => Some (Err Unavailable)
  | SelectProfile _ => Some (Err Unavailable)
  | SelectProfileRole _ => Some (Err Unavailable)
  | SelectAllowedIp _ => Some (Err Unavailable)
  | SelectPendingRequest _ _ => Some (Err Unavailable)
  | InsertAccessRequest _ _ => Some (Err Unavailable)
  | SelectRequestStatus _ => Some (Err Unavailable)
  | SelectRequest _ => Some (Err Unavailable)
  | UpdateAccessRequest _ _ _ _ => Some (Err Unavailable)
  | InsertAllowedIp _ _ _ => Some (Err Unavailable)
  end.

(** ** Handler programs *)

Inductive prog (R : Type) : Type :=
| Ret (r : R)
| Vis {X : Type} (q : query X) (k : X → prog R).
Arguments Ret {R} r.
Arguments Vis {R X} q k.

Notation "'await' x <- q ;; k" := (Vis q (λ x, k))
  (at level 10, x name, q at level 99, k at level 200,
   format "'[v' 'await'  x  <-  q  ;;  '/' k ']'").

(** Run a request to completion with every query let through, except where
    [faults] says otherwise: it tells, remote call by remote call, whether
    that call is answered an error without touching the store, as it is when
    the store cannot be reached or turns the query down; past its end every
    call goes through. *)
Fixpoint exec_with {R} (faults : list bool) (p : prog R) (w : world) :
    R * world :=
  match p with
  | Ret r => (r, w)
  | Vis q k =>
      match outage q with
      | None => let '(a, w') := perform q w in exec_with faults (k a) w'
      | Some down =>
          match faults with
          | true :: fs => exec_with fs (k down) w
          | _ => let '(a, w') := perform q w in
                 exec_with (tail faults) (k a) w'
          end
      end
  end.

Definition exec {R} (p : prog R) (w : world) : R * world := exec_with [] p w.

(** The queries a run sends, in the order it sends them. *)
Inductive sent :=
| Sent {X : Type} (q : query X).

Fixpoint sent_with {R} (faults : list bool) (p : prog R) (w : world) :
    list sent :=
  match p with
  | Ret _ => []
  | Vis q k =>
      Sent q ::
      match outage q with
      | None => let '(a, w') := perform q w in sent_with faults (k a) w'
      | Some down =>
          match faults with
          | true :: fs => sent_with fs (k down) w
          | _ => let '(a, w') := perform q w in
                 sent_with (tail faults) (k a) w'
          end
      end
  end.

(** ** Row-level security

    [createClient(url, SUPABASE_SERVICE_ROLE_KEY)] gives a client whose
    queries carry the service-role key.  [auth.signInWithPassword] keeps the
    session it obtains in that client, and the client sends every later
    query of the request with the access token of the session: the database
    then runs it as [authenticated], under the policies of the migration.
    [auth.getUser(jwt)] looks a token up and keeps nothing.  A client lives
    for one request. *)

Inductive credential :=
| ServiceKey
| UserToken (uid : uuid).

(** What a query sent with a user's token is answered; [None] for what is
    not a table query.

    [profiles] has row-level security enabled and two policies for
    [authenticated].  "Admins can manage all profiles" is [FOR ALL] and its
    condition selects from [profiles]: expanding the policies of [profiles]
    asks for the policies of [profiles] again, which the database reports as
    an infinite recursion, for every statement on the table and whatever its
    rows are.

    [allowed_ips] and [access_requests] have row-level security enabled and
    no policy: no row is visible and no new row is admitted.  A select finds
    nothing, an update matches nothing and succeeds, an insert is rejected. *)
Definition refused {X} (q : query X) : option X :=
  match q in query T return option T with
  | AuthSignInWithPassword _ _ => None
  | AuthGetUser _ => None
  | DateNow => None
  | ConsoleError _ => None
  | SelectProfile _ => Some (Err PolicyRecursion)
  | SelectProfileRole _ => Some (Err PolicyRecursion)
  | SelectAllowedIp _ => Some (Err NoRows)
  | SelectPendingRequest _ _ => Some (Err NoRows)
  | InsertAccessRequest _ _ => Some (Err RowSecurityViolation)
  | SelectRequestStatus _ => Some (Err NoRows)
  | SelectRequest _ => Some (Err NoRows)
  | UpdateAccessRequest _ _ _ _ => Some (Ok ())
  | InsertAllowedIp _ _ _ => Some (Err RowSecurityViolation)
  end.

(** One query, sent with the credential the client holds. *)
Definition send {X} (cred : credential) (q : query X) (w : world) : X * world :=
  match cred, refused q with
  | UserToken _, Some answer => (answer, w)
  | _, _ => perform q w
  end.

(** The credential the client holds after a query has been answered. *)
Definition credential_after {X} (cred : credential) (q : query X) :
    X → credential :=
  match q in query T return T → credential with
  | AuthSignInWithPassword _ _ =>
      λ a, match a with
           | Ok d => UserToken (user_id (data_user d))
           | Err _ => cred
           end
  | _ => λ _, cred
  end.

(** Run a request to completion as the deployed function does: every query
    is sent with the credential its client holds.  [faults] is as for
    [exec_with]. *)
Fixpoint serve_with {R} (cred : credential) (faults : list bool) (p : prog R)
    (w : world) : R * world :=
  match p with
  | Ret r => (r, w)
  | Vis q k =>
      match outage q with
      | None =>
          let '(a, w') := send cred q w in
          serve_with (credential_after cred q a) faults (k a) w'
      | Some down =>
          match faults with
          | true :: fs => serve_with cred fs (k down) w
          | _ =>
              let '(a, w') := send cred q w in
              serve_with (credential_after cred q a) (tail faults) (k a) w'
          end
      end
  end.

(** A request starts with a fresh client, which holds the service-role key. *)
Definition serve {R} (p : prog R) (w : world) : R * world :=
  serve_with ServiceKey [] p w.

Definition is_sign_in {X} (q : query X) : bool :=
  match q with
  | AuthSignInWithPassword _ _ => true
  | _ => false
  end.

(** A program that never signs a user in. *)
Inductive keeps_service_key {R} : prog R → Prop :=
| keeps_ret r : keeps_service_key (Ret r)
| keeps_vis X (q : query X) k :
    is_sign_in q = false →
    (∀ a, keeps_service_key (k a)) →
    keeps_service_key (Vis q k).

(** ** HTTP responses *)

#[warnings="-register-all"]
Inductive json :=
| JNull
| JBool (b : bool)
| JNumber (n : nat)
| JString (s : string)
| JObject (fields : list (string * json)).

Record response := { http_status : nat; body : json }.

(** [new Response(JSON.stringify(obj), { headers })]: status 200 unless given. *)
Definition respond (code : nat) (fields : list (string * json)) : response :=
  {| http_status := code; body := JObject fields |}.

Definition error_response (code : nat) (msg : string) : response :=
  respond code [("error", JString msg)].

Definition keys (r : response) : list string :=
  match body r with
  | JObject fields => fields.*1
  | _ => []
  end.

Fixpoint assoc (k : string) (fields : list (string * json)) : option json :=
  match fields with
  | [] => None
  | (k', v) :: rest => if decide (k' = k) then Some v else assoc k rest
  end.

Definition field (k : string) (r : response) : option json :=
  match body r with
  | JObject fields => assoc k fields
  | _ => None
  end.

Definition user_json (u : auth_user) : json :=
  JObject [("id", JString (user_id u)); ("email", JString (user_email u))].

Definition profile_json (p : profile_view) : json :=
  JObject [("role", JString (pv_role p)); ("full_name", JString (pv_full_name p))].

Definition session_json (s : auth_session) : json :=
  JObject [("access_token", JString (access_token s))].

Definition timestamp_json (t : option nat) : json :=
  match t with
  | Some n => JNumber n
  | None => JNull
  end.

Definition granted (d : auth_data) (p : profile_view) : response :=
  respond 200 [("success", JBool true);
               ("user", user_json (data_user d));
               ("profile", profile_json p);
               ("session", session_json (data_session d))].

Definition pending_approval (request_id : uuid) : response :=
  respond 200 [("success", JBool false);
               ("status", JString "PENDING_APPROVAL");
               ("message", JString "Access request pending admin approval");
               ("request_id", JString request_id)].

(** ** [secure-login] *)

(** [POST /secure-login], after [ip_address] has been read off the request
    headers: the calls the handler makes on its client, in order.  Which
    credential the client puts on each of them is not the handler's to say:
    [serve_with] tracks it. *)
Definition login (email password ip_address : string) : prog response :=
  await authResult <- AuthSignInWithPassword email password ;;
  match authResult with
  | Err _ => Ret (error_response 401 "Invalid credentials")
  | Ok authData =>
    await profileResult <- SelectProfile (user_id (data_user authData)) ;;
    match profileResult with
    | Err _ => Ret (error_response 404 "Profile not found")
    | Ok profile =>
      if decide (pv_role profile = "ADMIN") then Ret (granted authData profile)
      else if decide (pv_role profile = "CS") then
        await allowedIp <- SelectAllowedIp ip_address ;;
        match allowedIp with
        | Ok _ => Ret (granted authData profile)
        | Err _ =>
          await existingRequest <-
            SelectPendingRequest (user_id (data_user authData)) ip_address ;;
          match existingRequest with
          | Ok (requestId, _) => Ret (pending_approval requestId)
          | Err _ =>
            await newRequest <-
              InsertAccessRequest (user_id (data_user authData)) ip_address ;;
            match newRequest with
            | Err _ =>
                Ret (error_response 500 "Failed to create access request")
            | Ok requestId => Ret (pending_approval requestId)
            end
          end
        end
      else Ret (error_response 403 "Invalid user role")
    end
  end.

(** [GET /secure-login/status/:request_id], for the uuid [requestId]. *)
Definition request_status_of (requestId : string) : prog response :=
  await accessRequest <- SelectRequestStatus requestId ;;
  match accessRequest with
  | Err _ => Ret (error_response 404 "Request not found")
  | Ok (st, resolved) =>
      Ret (respond 200 [("status", JString (status_text st));
                        ("resolved_at", timestamp_json resolved)])
  end.

(** [id uuid PRIMARY KEY]: the database reads the text it is given in
    [.eq('id', text)] as a uuid.  One uuid has many spellings (digits in
    either case, braces around it, hyphens left out) and a text that spells
    none makes the select fail, which the handler answers like a missing row.
    [uuid_in] is that reading: the uuid a text spells, if any, in the
    spelling under which the store keys the row.  It is kept abstract. *)
Definition status_by_text (uuid_in : string → option uuid)
    (requestId : string) : prog response :=
  match uuid_in requestId with
  | Some id => request_status_of id
  | None => Ret (error_response 404 "Request not found")
  end.



(** ** [resolve-access-request] *)

(** [String.prototype.replace] with a string pattern and the empty
    replacement: the first occurrence goes. *)
Fixpoint remove_first (pat s : string) : string :=
  if String.prefix pat s then String.substring (String.length pat)
                                (String.length s - String.length pat) s
  else match s with
       | EmptyString => EmptyString
       | String c rest => String c (remove_first pat rest)
       end.

Definition lower_ascii (c : ascii) : ascii :=
  let n := nat_of_ascii c in
  if (65 <=? n)%nat && (n <=? 90)%nat then ascii_of_nat (n + 32) else c.

Fixpoint toLowerCase (s : string) : string :=
  match s with
  | EmptyString => EmptyString
  | String c rest => String (lower_ascii c) (toLowerCase rest)
  end.

Definition resolved_ok (action : string) : response :=
  respond 200 [("success", JBool true);
               ("action", JString action);
               ("message", JString ("Access request " ++ toLowerCase action
                                      ++ "d successfully"))].

Definition resolve (authHeader : option string) (request_id action : string) :
    prog response :=
  match authHeader with
  | None => Ret (error_response 401 "Authorization required")
  | Some header =>
    if decide (header = "") then Ret (error_response 401 "Authorization required")
    else
    await userResult <- AuthGetUser (remove_first "Bearer " header) ;;
    match userResult with
    | Err _ => Ret (error_response 401 "Invalid authentication")
    | Ok user =>
      await profileResult <- SelectProfileRole (user_id user) ;;
      match profileResult with
      | Err _ => Ret (error_response 403 "Admin access required")
      | Ok profileRole =>
        if decide (profileRole ≠ "ADMIN")
        then Ret (error_response 403 "Admin access required")
        else if decide (request_id = "" ∨ action ∉ ["APPROVE"; "DENY"])
        then Ret (error_response 400 "Invalid request parameters")
        else
        await requestResult <- SelectRequest request_id ;;
        match requestResult with
        | Err _ => Ret (error_response 404 "Access request not found")
        | Ok (_, request_ip, request_st) =>
          if decide (request_st ≠ PENDING)
          then Ret (error_response 400 "Request already resolved")
          else
          await now <- DateNow ;;
          await updateResult <-
            UpdateAccessRequest request_id
              (if decide (action = "APPROVE") then APPROVED else DENIED)
              now (user_id user) ;;
          match updateResult with
          | Err _ => Ret (error_response 500 "Failed to update request")
          | Ok _ =>
            if decide (action = "APPROVE") then
              await ipResult <-
                InsertAllowedIp request_ip "Auto-approved for CS user access"
                  (user_id user) ;;
              match ipResult with
              | Err _ =>
                await logged <- ConsoleError "Failed to add IP to allowed list:" ;;
                Ret (resolved_ok action)
              | Ok _ => Ret (resolved_ok action)
              end
            else Ret (resolved_ok action)
          end
        end
      end
    end
  end.

(** ** Outcomes, as the caller tells them apart *)

Definition is_deferred (r : response) : Prop :=
  field "status" r = Some (JString "PENDING_APPROVAL").

Global Instance is_deferred_dec r : Decision (is_deferred r).
Proof.
  unfold is_deferred.
  destruct (field "status" r) as [[ | | |s| ]|];
    try (right; discriminate).
  destruct (decide (s = "PENDING_APPROVAL")) as [->|Hne];
    [left; reflexivity | right; congruence].
Defined.

(** ** Simultaneous requests

    Between two [await]s a handler does not touch the store, so a set of
    requests in flight is a list of programs, and a schedule says whose next
    query runs.  Every step is a query that the store lets through, as it
    does for the requests of a client that keeps the service-role key. *)

Definition step_thread {R} (p : prog R) (w : world) : prog R * world :=
  match p with
  | Ret r => (Ret r, w)
  | Vis q k => let '(a, w') := perform q w in (k a, w')
  end.

Fixpoint run_schedule {R} (sched : list nat) (threads : list (prog R))
    (w : world) : list (prog R) * world :=
  match sched with
  | [] => (threads, w)
  | i :: rest =>
      match threads !! i with
      | None => run_schedule rest threads w
      | Some p =>
          let '(p', w') := step_thread p w in
          run_schedule rest (<[i := p']> threads) w'
      end
  end.

(** The entry points of the two functions. *)
Inductive call :=
| PostSecureLogin (email password ip_address : string)
| GetStatus (requestId : string)
| PostResolve (authHeader : option string) (request_id action : string).

Definition handle (c : call) : prog response :=
  match c with
  | PostSecureLogin email password ip => login email password ip
  | GetStatus requestId => request_status_of requestId
  | PostResolve authHeader request_id action =>
      resolve authHeader request_id action
  end.

(** States reached from [w0] when requests are served one after the other. *)
Inductive reachable_seq (w0 : world) : world → Prop :=
| reach_start : reachable_seq w0 w0
| reach_call c w :
    reachable_seq w0 w → reachable_seq w0 (exec (handle c) w).2.

(** At most one PENDING row per (profile, address). *)
Definition at_most_one_pending (w : world) : Prop :=
  ∀ pid ip, (size (pending_rows pid ip w) ≤ 1)%nat.

(** A property of every response a program can return, whatever the store
    answers. *)
Inductive always_returns {R} (P : R → Prop) : prog R → Prop :=
| returns_ret r : P r → always_returns P (Ret r)
| returns_vis X (q : query X) k :
    (∀ a, always_returns P (k a)) → always_returns P (Vis q k).

(** Two stores that differ at most in the [is_active] column of [profiles]. *)
Definition visible_columns (p : profile_row) : string * string :=
  (full_name p, role p).

Definition same_up_to_active (w1 w2 : world) : Prop :=
  auth w1 = auth w2 ∧
  visible_columns <$> profiles w1 = visible_columns <$> profiles w2 ∧
  allowed_ips w1 = allowed_ips w2 ∧
  access_requests w1 = access_requests w2 ∧
  clock w1 = clock w2 ∧
  console w1 = console w2.

(** The caller of [resolve] presents a bearer token of a profile whose role
    is ADMIN. *)
Definition privileged (w : world) (header : string) (admin : auth_user) : Prop :=
  header ≠ "" ∧
  getUser (auth w) (remove_first "Bearer " header) = Some admin ∧
  role <$> profiles w !! user_id admin = Some "ADMIN".

(** The store after the status write of an approval or denial. *)
Definition resolved_world (w : world) (rid : uuid) (st : request_status)
    (admin : auth_user) : world :=
  set_access_requests
    (alter (resolve_row st (clock w) (user_id admin)) rid (access_requests w)) w.

(** The store after the address write of an approval went through. *)
Definition listed_world (w : world) (ip : string) (admin : auth_user) : world :=
  set_allowed_ips
    (<[ip := {| aip_id := fresh_allowed_ip_id w;
                description := Some "Auto-approved for CS user access";
                created_by := Some (user_id admin);
                created_at := clock w |}]> (allowed_ips w)) w.

(** ** A small deployment used to instantiate the statements *)

Module Demo.

Definition cs_user : auth_user :=
  {| user_id := "u-cs"; user_email := "cs@fmf.com" |}.
Definition admin_user : auth_user :=
  {| user_id := "u-admin"; user_email := "admin@fmf.com" |}.

Definition cs_data : auth_data :=
  {| data_user := cs_user; data_session := {| access_token := "tok-cs" |} |}.
Definition admin_data : auth_data :=
  {| data_user := admin_user;
     data_session := {| access_token := "tok-admin" |} |}.

Definition idp : identity_store :=
  {| signInWithPassword email password :=
       if decide (email = "cs@fmf.com" ∧ password = "password123")
       then Some cs_data
       else if decide (email = "admin@fmf.com" ∧ password = "password123")
       then Some admin_data
       else None;
     getUser jwt :=
       if decide (jwt = "tok-admin") then Some admin_user
       else if decide (jwt = "tok-cs") then Some cs_user
       else None |}.

Definition cs_profile : profile_row :=
  {| full_name := "Customer Service"; role := "CS"; is_active := true |}.
Definition admin_profile : profile_row :=
  {| full_name := "Admin User"; role := "ADMIN"; is_active := true |}.

Definition w0 : world :=
  {| auth := idp;
     profiles := <["u-cs" := cs_profile]> (<["u-admin" := admin_profile]> ∅);
     allowed_ips := ∅;
     access_requests := ∅;
     clock := 7;
     console := [] |}.

(** [w0] with the request that a login of the restricted user from 10.0.0.5
    queues when its queries are let through. *)
Definition w1 : world :=
  (exec (login "cs@fmf.com" "password123" "10.0.0.5") w0).2.

(** [w1] after the administrator has approved that request. *)
Definition w2 : world :=
  (exec (resolve (Some "Bearer tok-admin") "0" "APPROVE") w1).2.

(** [w0] with the restricted profile deactivated. *)
Definition w0_inactive : world :=
  set_profiles
    (<["u-cs" := {| full_name := "Customer Service"; role := "CS";
                    is_active := false |}]> (profiles w0)) w0.

End Demo.

(** ** The requests as they arrive

    What [Deno.serve] hands to the two functions: the method, the path of the
    URL, the three headers that are read, and the JSON body as the
    [LoginRequest] and [ResolveRequest] interfaces type it ([None] when
    [req.json()] throws). *)

Record http_request := {
  req_method : string;
  req_path : string;
  x_forwarded_for : option string;
  x_real_ip : option string;
  authorization : option string;
  req_json : option (string * string)
}.

(** [String.prototype.includes] *)
Fixpoint includes (pat s : string) : bool :=
  String.prefix pat s ||
  match s with
  | EmptyString => false
  | String _ rest => includes pat rest
  end.

(** [String.prototype.split] with a non-empty string separator: the pieces
    between the occurrences of the separator, found from left to right.
    [skip] counts the characters of a separator still to be passed over. *)
Fixpoint split_go (sep : string) (skip : nat) (piece s : string) : list string :=
  match s with
  | EmptyString => [piece]
  | String c rest =>
      match skip with
      | S n => split_go sep n piece rest
      | O =>
          if String.prefix sep s
          then piece :: split_go sep (String.length sep - 1) EmptyString rest
          else split_go sep 0 (piece ++ String c EmptyString) rest
      end
  end.

Definition split_on (sep s : string) : list string :=
  split_go sep 0 EmptyString s.

(** [Array.prototype.join] *)
Definition join (sep : string) (pieces : list string) : string :=
  String.concat sep pieces.

(** White space and line terminators of [String.prototype.trim] among the
    characters a header value can hold (code points up to 255). *)
Definition is_space (c : ascii) : bool :=
  let n := nat_of_ascii c in
  (n =? 9)%nat || (n =? 10)%nat || (n =? 11)%nat || (n =? 12)%nat
  || (n =? 13)%nat || (n =? 32)%nat || (n =? 160)%nat.

Fixpoint trim_start (s : string) : string :=
  match s with
  | EmptyString => EmptyString
  | String c rest => if is_space c then trim_start rest else s
  end.

Fixpoint trim_end (s : string) : string :=
  match s with
  | EmptyString => EmptyString
  | String c rest =>
      match trim_end rest with
      | EmptyString => if is_space c then EmptyString else String c EmptyString
      | kept => String c kept
      end
  end.

Definition trim (s : string) : string := trim_end (trim_start s).

Fixpoint all_spaces (s : string) : bool :=
  match s with
  | EmptyString => true
  | String c rest => is_space c && all_spaces rest
  end.

(** [a || b] on strings that may be absent: the first that is neither
    missing nor empty. *)
Definition or_else (a : option string) (b : string) : string :=
  match a with
  | Some s => if decide (s = "") then b else s
  | None => b
  end.

(** [req.headers.get('x-forwarded-for')?.split(',')[0]?.trim()
     || req.headers.get('x-real-ip') || 'unknown'] *)
Definition client_ip (req : http_request) : string :=
  or_else ((λ v, trim (hd "" (split_on "," v))) <$> x_forwarded_for req)
    (or_else (x_real_ip req) "unknown").

(** [new Response(null, { headers: corsHeaders })]: status 200, no body. *)
Definition preflight : response := {| http_status := 200; body := JNull |}.

(** The [secure-login] function.  The only step that can throw is
    [req.json()]; the [catch] around the handler writes the error to the log
    and answers 500. *)
Definition secure_login_serve (req : http_request) : prog response :=
  if decide (req_method req = "OPTIONS") then Ret preflight
  else if decide (req_method req = "GET"
                  ∧ includes "/status/" (req_path req) = true)
  then request_status_of
         (default "undefined" (split_on "/status/" (req_path req) !! 1))
  else if decide (req_method req = "POST") then
    match req_json req with
    | None =>
      await logged <- ConsoleError "Secure login error:" ;;
      Ret (error_response 500 "Internal server error")
    | Some (email, password) => login email password (client_ip req)
    end
  else Ret (error_response 405 "Method not allowed").

(** The part of [resolve-access-request] that follows the parsing of the
    body. *)
Definition resolve_parsed (user : auth_user) (request_id action : string) :
    prog response :=
  if decide (request_id = "" ∨ action ∉ ["APPROVE"; "DENY"])
  then Ret (error_response 400 "Invalid request parameters")
  else
  await requestResult <- SelectRequest request_id ;;
  match requestResult with
  | Err _ => Ret (error_response 404 "Access request not found")
  | Ok (_, request_ip, request_st) =>
    if decide (request_st ≠ PENDING)
    then Ret (error_response 400 "Request already resolved")
    else
    await now <- DateNow ;;
    await updateResult <-
      UpdateAccessRequest request_id
        (if decide (action = "APPROVE") then APPROVED else DENIED)
        now (user_id user) ;;
    match updateResult with
    | Err _ => Ret (error_response 500 "Failed to update request")
    | Ok _ =>
      if decide (action = "APPROVE") then
        await ipResult <-
          InsertAllowedIp request_ip "Auto-approved for CS user access"
            (user_id user) ;;
        match ipResult with
        | Err _ =>
          await logged <- ConsoleError "Failed to add IP to allowed list:" ;;
          Ret (resolved_ok action)
        | Ok _ => Ret (resolved_ok action)
        end
      else Ret (resolved_ok action)
    end
  end.

(** The [resolve-access-request] function: the body is read only after the
    caller has been found to be an ADMIN.  [req.json()] is again the only
    step that can throw, into a [catch] that logs and answers 500. *)
Definition resolve_serve (req : http_request) : prog response :=
  if decide (req_method req = "OPTIONS") then Ret preflight
  else if decide (req_method req ≠ "POST")
  then Ret (error_response 405 "Method not allowed")
  else
  match authorization req with
  | None => Ret (error_response 401 "Authorization required")
  | Some header =>
    if decide (header = "") then Ret (error_response 401 "Authorization required")
    else
    await userResult <- AuthGetUser (remove_first "Bearer " header) ;;
    match userResult with
    | Err _ => Ret (error_response 401 "Invalid authentication")
    | Ok user =>
      await profileResult <- SelectProfileRole (user_id user) ;;
      match profileResult with
      | Err _ => Ret (error_response 403 "Admin access required")
      | Ok profileRole =>
        if decide (profileRole ≠ "ADMIN")
        then Ret (error_response 403 "Admin access required")
        else
        match req_json req with
        | None =>
          await logged <- ConsoleError "Resolve access request error:" ;;
          Ret (error_response 500 "Internal server error")
        | Some (request_id, action) => resolve_parsed user request_id action
        end
      end
    end
  end.

(** ** The browser side

    [secureSignIn] and [hasRole] of [src/lib/auth.ts], [signIn] of the auth
    store and the menu filter of the sidebar.  Values that come out of
    [response.json()] are untyped, so they stay [json] here. *)

(** JavaScript truthiness. *)
Definition truthy (v : json) : bool :=
  match v with
  | JNull => false
  | JBool b => b
  | JNumber n => negb (n =? 0)%nat
  | JString s => negb (String.eqb s "")
  | JObject _ => true
  end.

(** [obj.key]: [None] is [undefined] (also for a key of a primitive). *)
Definition member (k : string) (v : json) : option json :=
  match v with
  | JObject fields => assoc k fields
  | _ => None
  end.

(** Truthiness of a property that may be [undefined]. *)
Definition holds (v : option json) : bool :=
  match v with
  | Some x => truthy x
  | None => false
  end.

(** [a || b] *)
Definition js_or (a : option json) (b : json) : json :=
  match a with
  | Some v => if truthy v then v else b
  | None => b
  end.

(** [v === 'text'] *)
Definition is_text (v : option json) (text : string) : bool :=
  match v with
  | Some (JString s) => String.eqb s text
  | _ => false
  end.

(** [response.ok] *)
Definition response_ok (r : response) : bool :=
  (200 <=? http_status r)%nat && (http_status r <=? 299)%nat.

Definition network_error : json :=
  JObject [("success", JBool false);
           ("error", JString "Network error occurred")].

(** [secureSignIn]: what the caller gets for the answer of the function;
    [None] is a [fetch] that rejects or a body that is not JSON.  Reading
    [data.error] off a [null] body throws, which the [catch] turns into the
    network error. *)
Definition secureSignIn (server : option response) : json :=
  match server with
  | None => network_error
  | Some r =>
      if response_ok r then body r
      else match body r with
           | JNull => network_error
           | data =>
               JObject [("success", JBool false);
                        ("error", js_or (member "error" data)
                                    (JString "Authentication failed"))]
           end
  end.

(** The auth store. *)
Record auth_state := {
  st_user : option json;
  st_profile : option json;
  st_loading : bool;
  pendingApprovalRequestId : option json
}.

Definition sign_in_failed (message : json) : json :=
  JObject [("error", JObject [("message", message)])].

(** [signIn] of the store, given what [secureSignIn] returned: the value it
    resolves to and the state it leaves. *)
Definition signIn (st : auth_state) (response : json) : json * auth_state :=
  match response with
  | JNull => (sign_in_failed (JString "An unexpected error occurred"), st)
  | _ =>
    if holds (member "success" response)
       && holds (member "user" response)
       && holds (member "profile" response)
    then (JObject [("error", JNull)],
          {| st_user := member "user" response;
             st_profile := member "profile" response;
             st_loading := false;
             pendingApprovalRequestId := None |})
    else if is_text (member "status" response) "PENDING_APPROVAL"
            && holds (member "request_id" response)
    then (JObject [("error",
                    JObject [("message",
                              js_or (member "message" response)
                                (JString "Access request pending admin approval"));
                             ("status", JString "PENDING_APPROVAL")]);
                   ("status", JString "PENDING_APPROVAL")],
          {| st_user := None;
             st_profile := None;
             st_loading := false;
             pendingApprovalRequestId := member "request_id" response |})
    else (sign_in_failed (js_or (member "error" response)
                            (JString "Authentication failed")), st)
  end.

(** One sign-in from the browser: the login runs on the store, its answer
    goes through [secureSignIn] into [signIn]. *)
Definition browser_sign_in (faults : list bool) (w : world)
    (email password ip : string) (st : auth_state) : json * auth_state :=
  signIn st (secureSignIn (Some (exec_with faults (login email password ip) w).1)).

(** [hasRole] *)
Definition hasRole (profile : option json) (requiredRole : string) : bool :=
  match profile with
  | None => false
  | Some p =>
      if negb (truthy p) then false
      else if String.eqb requiredRole "CS"
      then is_text (member "role" p) "ADMIN" || is_text (member "role" p) "CS"
      else is_text (member "role" p) requiredRole
  end.

Record nav_item := { nav_name : string; nav_href : string; nav_roles : list string }.

Definition navigation : list nav_item :=
  [ {| nav_name := "Dashboard"; nav_href := "/"; nav_roles := ["ADMIN"; "CS"] |};
    {| nav_name := "Members"; nav_href := "/members"; nav_roles := ["ADMIN"; "CS"] |};
    {| nav_name := "Check-In"; nav_href := "/checkin"; nav_roles := ["ADMIN"; "CS"] |};
    {| nav_name := "Membership Plans"; nav_href := "/membership-plans"; nav_roles := ["ADMIN"] |};
    {| nav_name := "Coupon Templates"; nav_href := "/coupon-templates"; nav_roles := ["ADMIN"] |};
    {| nav_name := "POS & Inventory"; nav_href := "/pos"; nav_roles := ["ADMIN"; "CS"] |};
    {| nav_name := "Sales"; nav_href := "/sales"; nav_roles := ["ADMIN"; "CS"] |};
    {| nav_name := "Shifts"; nav_href := "/shifts"; nav_roles := ["ADMIN"; "CS"] |};
    {| nav_name := "Staff Management"; nav_href := "/staff"; nav_roles := ["ADMIN"] |};
    {| nav_name := "Network Access"; nav_href := "/network-access"; nav_roles := ["ADMIN"] |};
    {| nav_name := "Data Management"; nav_href := "/data"; nav_roles := ["ADMIN"] |};
    {| nav_name := "System Settings"; nav_href := "/settings"; nav_roles := ["ADMIN"] |} ].

(** [items.filter(item => item.roles.some(role => hasRole(profile, role)))] *)
Definition filteredNavigation (profile : option json) (items : list nav_item) :
    list nav_item :=
  List.filter (λ item, existsb (hasRole profile) (nav_roles item)) items.

(** ** What a request can end in

    The two relations below list, branch by branch, the answers of [login]
    and [resolve] together with the store they leave.  They hold whichever
    remote calls hit an outage, so their side conditions are the ones an
    outage cannot fake. *)

Definition is_granted (r : response) : Prop :=
  field "success" r = Some (JBool true).

(** One remote call under a fault plan, and the plan left for the next one. *)
Definition attempt {X} (faults : list bool) (q : query X) (w : world) :
    X * world :=
  match outage q, faults with
  | Some down, true :: _ => (down, w)
  | _, _ => perform q w
  end.

Definition after {X} (faults : list bool) (q : query X) : list bool :=
  match outage q with
  | None => faults
  | Some _ => tail faults
  end.

Inductive login_outcome (w : world) (email password ip : string) :
    response * world → Prop :=
| login_401 :
    login_outcome w email password ip
      (error_response 401 "Invalid credentials", w)
| login_404 d :
    signInWithPassword (auth w) email password = Some d →
    login_outcome w email password ip
      (error_response 404 "Profile not found", w)
| login_403 d p :
    signInWithPassword (auth w) email password = Some d →
    profiles w !! user_id (data_user d) = Some p →
    role p ≠ "ADMIN" → role p ≠ "CS" →
    login_outcome w email password ip
      (error_response 403 "Invalid user role", w)
| login_admin d p :
    signInWithPassword (auth w) email password = Some d →
    profiles w !! user_id (data_user d) = Some p →
    role p = "ADMIN" →
    login_outcome w email password ip (granted d (view_of p), w)
| login_listed d p :
    signInWithPassword (auth w) email password = Some d →
    profiles w !! user_id (data_user d) = Some p →
    role p = "CS" →
    is_Some (allowed_ips w !! ip) →
    login_outcome w email password ip (granted d (view_of p), w)
| login_reuse d p rid r :
    signInWithPassword (auth w) email password = Some d →
    profiles w !! user_id (data_user d) = Some p →
    role p = "CS" →
    pending_rows (user_id (data_user d)) ip w = {[ rid := r ]} →
    login_outcome w email password ip (pending_approval rid, w)
| login_queue d p :
    signInWithPassword (auth w) email password = Some d →
    profiles w !! user_id (data_user d) = Some p →
    role p = "CS" →
    login_outcome w email password ip
      (pending_approval (fresh_request_id w),
       set_access_requests
         (<[fresh_request_id w :=
              new_request (user_id (data_user d)) ip (clock w)]>
            (access_requests w)) w)
| login_500 d p :
    signInWithPassword (auth w) email password = Some d →
    profiles w !! user_id (data_user d) = Some p →
    role p = "CS" →
    login_outcome w email password ip
      (error_response 500 "Failed to create access request", w).

Inductive resolve_outcome (w : world) (authHeader : option string)
    (request_id action : string) : response * world → Prop :=
| resolve_refused code msg :
    In code [400; 401; 403; 404; 500] →
    resolve_outcome w authHeader request_id action
      (error_response code msg, w)
| resolve_denied header user r :
    authHeader = Some header →
    privileged w header user →
    request_id ≠ "" →
    action = "DENY" →
    access_requests w !! request_id = Some r →
    status r = PENDING →
    resolve_outcome w authHeader request_id action
      (resolved_ok action, resolved_world w request_id DENIED user)
| resolve_approved header user r :
    authHeader = Some header →
    privileged w header user →
    request_id ≠ "" →
    action = "APPROVE" →
    access_requests w !! request_id = Some r →
    status r = PENDING →
    allowed_ips w !! ip_address r = None →
    resolve_outcome w authHeader request_id action
      (resolved_ok action,
       listed_world (resolved_world w request_id APPROVED user)
         (ip_address r) user)
| resolve_approved_unlisted header user r :
    authHeader = Some header →
    privileged w header user →
    request_id ≠ "" →
    action = "APPROVE" →
    access_requests w !! request_id = Some r →
    status r = PENDING →
    resolve_outcome w authHeader request_id action
      (resolved_ok action,
       log_error "Failed to add IP to allowed list:"
         (resolved_world w request_id APPROVED user)).

(** States reached from [w0] by requests served one after the other, any of
    whose remote calls may hit an outage. *)
Inductive reachable_faulty (w0 : world) : world → Prop :=
| faulty_start : reachable_faulty w0 w0
| faulty_call c faults w :
    reachable_faulty w0 w →
    reachable_faulty w0 (exec_with faults (handle c) w).2.

(** States reached from [w0] by requests served one after the other by the
    functions as deployed. *)
Inductive reachable_served (w0 : world) : world → Prop :=
| served_start : reachable_served w0 w0
| served_call c faults w :
    reachable_served w0 w →
    reachable_served w0 (serve_with ServiceKey faults (handle c) w).2.

(** An address that an ADMIN has approved a request for. *)
Definition approved_by_admin (w : world) (ip : string) : Prop :=
  ∃ rid r admin p,
    access_requests w !! rid = Some r ∧
    ip_address r = ip ∧
    status r = APPROVED ∧
    resolved_by r = Some admin ∧
    profiles w !! admin = Some p ∧
    role p = "ADMIN".

(** Resolution time and resolver are recorded exactly on the rows that are
    no longer PENDING. *)
Definition resolution_recorded (w : world) : Prop :=
  ∀ rid r,
    access_requests w !! rid = Some r →
    (status r = PENDING ↔ resolved_at r = None)
    ∧ (status r = PENDING ↔ resolved_by r = None).

(** What one request, of any kind and under any outage, can do to the
    store: identities and profiles stay; a request row stays as it is unless
    it was PENDING and an ADMIN resolved it; a row that appears is a new
    PENDING request; an address that appears in [allowed_ips] has an
    APPROVED request behind it. *)
Definition request_step (w w' : world) : Prop :=
  auth w' = auth w
  ∧ profiles w' = profiles w
  ∧ (∀ rid r,
       access_requests w !! rid = Some r →
       access_requests w' !! rid = Some r
       ∨ (status r = PENDING
          ∧ ∃ st admin p,
              st ≠ PENDING
              ∧ access_requests w' !! rid
                = Some (resolve_row st (clock w) admin r)
              ∧ profiles w !! admin = Some p
              ∧ role p = "ADMIN"))
  ∧ (∀ rid r',
       access_requests w' !! rid = Some r' →
       access_requests w !! rid = None →
       ∃ pid ip now, r' = new_request pid ip now)
  ∧ (∀ ip,
       is_Some (allowed_ips w' !! ip) →
       is_Some (allowed_ips w !! ip) ∨ approved_by_admin w' ip).

(** ** Further deployments used to instantiate the statements *)

Module Scenario.

(** The identity provider knows the restricted user, [profiles] does not. *)
Definition no_profiles : world := set_profiles ∅ Demo.w0.

(** [Demo.w1] after the administrator has denied the request. *)
Definition denied : world :=
  (exec (resolve (Some "Bearer tok-admin") "0" "DENY") Demo.w1).2.

(** A login of the restricted user as the proxy forwards it. *)
Definition post_login : http_request :=
  {| req_method := "POST";
     req_path := "/functions/v1/secure-login";
     x_forwarded_for := Some " 10.0.0.5 , 172.16.0.1";
     x_real_ip := Some "172.16.0.1";
     authorization := None;
     req_json := Some ("cs@fmf.com", "password123") |}.

Definition with_method (m : string) (req : http_request) : http_request :=
  {| req_method := m; req_path := req_path req;
     x_forwarded_for := x_forwarded_for req; x_real_ip := x_real_ip req;
     authorization := authorization req; req_json := req_json req |}.

Definition without_body (req : http_request) : http_request :=
  {| req_method := req_method req; req_path := req_path req;
     x_forwarded_for := x_forwarded_for req; x_real_ip := x_real_ip req;
     authorization := authorization req; req_json := None |}.

(** A poll for request "0". *)
Definition get_status : http_request :=
  {| req_method := "GET";
     req_path := "/functions/v1/secure-login/status/0";
     x_forwarded_for := None; x_real_ip := None;
     authorization := None; req_json := None |}.

(** A reading of texts as ids for these deployments, whose ids are short:
    the case of the letters and a pair of braces do not matter, and the empty
    text spells nothing. *)
Definition uuid_in (text : string) : option uuid :=
  let id := toLowerCase (remove_first "}" (remove_first "{" text)) in
  if decide (id = "") then None else Some id.

Definition signed_out : auth_state :=
  {| st_user := None; st_profile := None; st_loading := false;
     pendingApprovalRequestId := None |}.

End Scenario.

(** ** Running programs *)

Lemma exec_vis {R X} (q : query X) (k : X → prog R) w :
  exec (Vis q k) w = exec (k (perform q w).1) (perform q w).2.
Proof.
  unfold exec; simpl.
  destruct (outage q); destruct (perform q w); reflexivity.
Qed.

Lemma exec_ret {R} (r : R) w : exec (Ret r) w = (r, w).
Proof. reflexivity. Qed.

(** A request that is alone in flight behaves as [exec] says. *)
Lemma run_schedule_alone {R} (p : prog R) :
  ∀ w, ∃ n,
    run_schedule (replicate n 0) [p] w = ([Ret (exec p w).1], (exec p w).2).
Proof.
  induction p as [r|X q k IH]; intros w.
  - exists 0. reflexivity.
  - destruct (IH (perform q w).1 (perform q w).2) as [n Hn].
    exists (S n). rewrite exec_vis. simpl.
    destruct (perform q w) as [a w']. exact Hn.
Qed.

Lemma always_returns_exec {R} (P : R → Prop) (p : prog R) :
  always_returns P p → ∀ faults w, P (exec_with faults p w).1.
Proof.
  induction 1 as [r Hr|X q k _ IH]; intros faults w; simpl; [exact Hr|].
  destruct (outage q) as [down|].
  - destruct faults as [|[] fs]; [| apply IH |];
      destruct (perform q w); apply IH.
  - destruct (perform q w); apply IH.
Qed.

Ltac run_query := rewrite exec_vis; cbn [perform fst snd].

(** ** The login decision *)

Section Login.
Variables (w : world) (email password ip : string).

(** C2: when the identity store rejects the credentials, [login] answers
    401 "Invalid credentials" whatever the profiles, the allowed addresses,
    the queued requests and the availability of the store are; the answer
    is not a Deferred one, nothing is written, and the sign-in is the only
    query the run sends: no table is read. *)
Theorem login_invalid_credentials (faults : list bool) :
  signInWithPassword (auth w) email password = None →
  exec_with faults (login email password ip) w
    = (error_response 401 "Invalid credentials", w)
  ∧ ¬ is_deferred (exec_with faults (login email password ip) w).1
  ∧ sent_with faults (login email password ip) w
    = [Sent (AuthSignInWithPassword email password)]
  ∧ ∀ profs ips reqs,
      (exec_with faults (login email password ip)
         (set_profiles profs
            (set_allowed_ips ips (set_access_requests reqs w)))).1
      = error_response 401 "Invalid credentials".
Proof.
  intros Hbad.
  assert (Hrun : ∀ w', auth w' = auth w →
    exec_with faults (login email password ip) w'
      = (error_response 401 "Invalid credentials", w')).
  { intros w' Hauth. unfold login. simpl.
    rewrite Hauth, Hbad. destruct faults as [|[] fs]; reflexivity. }
  split; [apply Hrun; reflexivity|]. split; [|split].
  - rewrite Hrun by reflexivity. discriminate.
  - unfold login. simpl. rewrite Hbad.
    destruct faults as [|[] fs]; reflexivity.
  - intros profs ips reqs. rewrite Hrun; reflexivity.
Qed.

(** With the profile select let through, a profile whose role is ADMIN is
    granted access from any address; the store is left as it was, and the
    run sends the sign-in and the profile select and nothing else.  This is
    the branch the handler's comment describes ("If user is ADMIN, allow
    login from any IP"); the deployed function does not get to it. *)
Lemma login_admin_granted (d : auth_data) (p : profile_row) :
  signInWithPassword (auth w) email password = Some d →
  profiles w !! user_id (data_user d) = Some p →
  role p = "ADMIN" →
  exec (login email password ip) w = (granted d (view_of p), w)
  ∧ sent_with [] (login email password ip) w
    = [Sent (AuthSignInWithPassword email password);
       Sent (SelectProfile (user_id (data_user d)))]
  ∧ ∀ ips reqs,
      (exec (login email password ip)
         (set_allowed_ips ips (set_access_requests reqs w))).1
      = granted d (view_of p).
Proof.
  intros Hok Hprof Hrole.
  assert (Hrun : ∀ w', auth w' = auth w → profiles w' = profiles w →
    exec (login email password ip) w' = (granted d (view_of p), w')).
  { intros w' Hauth Hprofs. unfold login.
    run_query. rewrite Hauth, Hok.
    run_query. rewrite Hprofs, Hprof. cbn [fmap option_fmap option_map of_lookup].
    rewrite decide_True by exact Hrole. reflexivity. }
  split; [apply Hrun; reflexivity|]. split.
  - unfold login. cbn [sent_with outage perform]. rewrite Hok.
    cbn [sent_with outage perform tail]. rewrite Hprof.
    cbn [fmap option_fmap option_map of_lookup].
    rewrite decide_True by exact Hrole. reflexivity.
  - intros ips reqs. rewrite Hrun; reflexivity.
Qed.

End Login.

(** ** The status query *)

(** For a uuid, the status query answers with the status and resolution
    time of the row under that key, 404 when there is none, and leaves the
    store as it was, also when the select hits an outage. *)
Lemma status_query_pure_read (w : world) (requestId : string) :
  exec (request_status_of requestId) w
  = (match access_requests w !! requestId with
     | Some r => respond 200 [("status", JString (status_text (status r)));
                              ("resolved_at", timestamp_json (resolved_at r))]
     | None => error_response 404 "Request not found"
     end, w)
  ∧ ∀ faults, (exec_with faults (request_status_of requestId) w).2 = w.
Proof.
  split.
  - unfold request_status_of. run_query.
    destruct (access_requests w !! requestId) as [r|]; reflexivity.
  - intros faults. unfold request_status_of. simpl.
    destruct faults as [|[] fs];
      destruct (access_requests w !! requestId) as [r|]; reflexivity.
Qed.

(** ** Deferred logins *)

Lemma fresh_request_id_free (w : world) :
  access_requests w !! fresh_request_id w = None.
Proof.
  apply not_elem_of_dom. unfold fresh_request_id. apply is_fresh.
Qed.

Lemma pending_rows_insert_new (w : world) (pid : uuid) (ip : string) id now :
  pending_rows pid ip w = ∅ →
  pending_rows pid ip
    (set_access_requests (<[id := new_request pid ip now]> (access_requests w)) w)
  = {[ id := new_request pid ip now ]}.
Proof.
  unfold pending_rows; cbn [access_requests set_access_requests]. intros Hnone.
  rewrite map_filter_insert_True by (repeat split).
  rewrite Hnone. apply insert_empty.
Qed.

(** With its queries let through, a CS profile logging in from an address
    that is not allowed and for which it has no PENDING request gets a
    Deferred answer naming a row that was not in the table before and now
    is, PENDING; logging in again right away gives the same request id and
    leaves the table as the first call left it.  The deployed function does
    not get to this branch. *)
Lemma login_restricted_deferred_once (w : world) (email password ip : string)
    (d : auth_data) (p : profile_row) :
  signInWithPassword (auth w) email password = Some d →
  profiles w !! user_id (data_user d) = Some p →
  role p = "CS" →
  allowed_ips w !! ip = None →
  pending_rows (user_id (data_user d)) ip w = ∅ →
  let rid := fresh_request_id w in
  let row := new_request (user_id (data_user d)) ip (clock w) in
  let w1 := set_access_requests (<[rid := row]> (access_requests w)) w in
  access_requests w !! rid = None
  ∧ exec (login email password ip) w = (pending_approval rid, w1)
  ∧ access_requests w1 !! rid = Some row
  ∧ exec (login email password ip) w1 = (pending_approval rid, w1).
Proof.
  intros Hok Hprof Hrole Hip Hnone rid row w1.
  assert (Hcs : pv_role (view_of p) ≠ "ADMIN") by (simpl; rewrite Hrole; discriminate).
  split; [apply fresh_request_id_free|]. split; [|split].
  - unfold login. run_query. rewrite Hok.
    run_query. rewrite Hprof. cbn [fmap option_fmap option_map of_lookup].
    rewrite decide_False by exact Hcs. rewrite decide_True by exact Hrole.
    run_query. rewrite Hip. cbn [fmap option_fmap option_map of_lookup].
    run_query. rewrite Hnone, map_to_list_empty. cbn [fmap list_fmap single].
    run_query. rewrite Hprof. cbn [fst snd]. reflexivity.
  - subst w1. cbn [access_requests set_access_requests]. apply lookup_insert_eq.
  - unfold login. run_query.
    change (auth w1) with (auth w). rewrite Hok.
    run_query. change (profiles w1) with (profiles w). rewrite Hprof.
    cbn [fmap option_fmap option_map of_lookup].
    rewrite decide_False by exact Hcs. rewrite decide_True by exact Hrole.
    run_query. change (allowed_ips w1) with (allowed_ips w). rewrite Hip.
    cbn [fmap option_fmap option_map of_lookup].
    run_query. subst w1 row. rewrite pending_rows_insert_new by exact Hnone.
    rewrite map_to_list_singleton. reflexivity.
Qed.

(** Every answer of [login] that carries status PENDING_APPROVAL is the
    four-field pending body. *)
Lemma login_deferred_shape (email password ip : string) :
  always_returns
    (λ r, is_deferred r → ∃ rid, r = pending_approval rid)
    (login email password ip).
Proof.
  unfold login.
  constructor; intros [d|?]; [|constructor; discriminate].
  constructor; intros [p|?]; [|constructor; discriminate].
  destruct (decide (pv_role p = "ADMIN")); [constructor; discriminate|].
  destruct (decide (pv_role p = "CS")); [|constructor; discriminate].
  constructor; intros [?|?]; [constructor; discriminate|].
  constructor; intros [[rid st]|?]; [constructor; eauto|].
  constructor; intros [rid|?]; constructor; [eauto | discriminate].
Qed.

(** C5: a Deferred answer of [login] has exactly the fields success, status,
    message and request_id, with success false and status 200: no user, no
    profile and no session field, whatever the store answered on the way. *)
Theorem login_deferred_has_no_session (faults : list bool) (w : world)
    (email password ip : string) :
  let r := (exec_with faults (login email password ip) w).1 in
  is_deferred r →
  http_status r = 200
  ∧ keys r = ["success"; "status"; "message"; "request_id"]
  ∧ field "success" r = Some (JBool false)
  ∧ field "user" r = None
  ∧ field "profile" r = None
  ∧ field "session" r = None.
Proof.
  intros r Hdef.
  destruct (always_returns_exec _ _ (login_deferred_shape email password ip)
              faults w Hdef) as [rid Hr].
  fold r in Hr. rewrite Hr. repeat split.
Qed.

(** ** Resolving a request *)

Lemma exec_with_pass {R X} (q : query X) (k : X → prog R) down fs w :
  outage q = Some down →
  exec_with (false :: fs) (Vis q k) w
  = exec_with fs (k (perform q w).1) (perform q w).2.
Proof. intros Hq. simpl. rewrite Hq. destruct (perform q w); reflexivity. Qed.

Lemma exec_with_fault {R X} (q : query X) (k : X → prog R) down fs w :
  outage q = Some down →
  exec_with (true :: fs) (Vis q k) w = exec_with fs (k down) w.
Proof. intros Hq. simpl. rewrite Hq. reflexivity. Qed.

Lemma exec_with_local {R X} (q : query X) (k : X → prog R) fs w :
  outage q = None →
  exec_with fs (Vis q k) w = exec_with fs (k (perform q w).1) (perform q w).2.
Proof. intros Hq. simpl. rewrite Hq. destruct (perform q w); reflexivity. Qed.

Ltac pass_query :=
  erewrite exec_with_pass by reflexivity; cbn [perform fst snd].

Section Resolve.
Variables (w : world) (header : string) (admin : auth_user).
Variables (rid : uuid) (r : access_request_row).
Hypothesis Hadmin : privileged w header admin.
Hypothesis Hrid : rid ≠ "".
Hypothesis Hrow : access_requests w !! rid = Some r.

Lemma privileged_profile : is_Some (profiles w !! user_id admin).
Proof.
  destruct Hadmin as (_ & _ & Hrole).
  destruct (profiles w !! user_id admin); [eauto | discriminate].
Qed.

(** The run of an approval whose first four remote calls go through. *)
Lemma resolve_approve_run (rest : list bool) :
  status r = PENDING →
  exec_with (false :: false :: false :: false :: rest)
    (resolve (Some header) rid "APPROVE") w
  = (resolved_ok "APPROVE",
     let w1 := resolved_world w rid APPROVED admin in
     match rest, allowed_ips w !! ip_address r with
     | true :: _, _ | _, Some _ =>
         log_error "Failed to add IP to allowed list:" w1
     | _, None => listed_world w1 (ip_address r) admin
     end).
Proof.
  intros Hst.
  destruct privileged_profile as [pa Hpa].
  destruct Hadmin as (Hhdr & Huser & Hrole).
  unfold resolve. rewrite decide_False by exact Hhdr.
  pass_query. rewrite Huser.
  pass_query. rewrite Hrole. cbn [of_lookup].
  rewrite decide_False by (intros Hne; apply Hne; reflexivity).
  rewrite decide_False
    by (intros [?|Hact]; [done | apply Hact; set_solver]).
  pass_query. rewrite Hrow. cbn [fmap option_fmap option_map of_lookup].
  rewrite Hst. rewrite decide_False by (intros Hne; apply Hne; reflexivity).
  rewrite exec_with_local by reflexivity. cbn [perform fst snd].
  pass_query. rewrite Hrow, Hpa. cbn [fst snd].
  rewrite !(decide_True (P := "APPROVE" = "APPROVE")) by reflexivity.
  fold (resolved_world w rid APPROVED admin).
  destruct rest as [|[] rest'].
  - unfold exec_with at 1. cbn [outage perform].
    change (profiles (resolved_world w rid APPROVED admin)) with (profiles w).
    change (allowed_ips (resolved_world w rid APPROVED admin))
      with (allowed_ips w).
    rewrite Hpa. destruct (allowed_ips w !! ip_address r); reflexivity.
  - erewrite exec_with_fault by reflexivity. cbv beta iota.
    rewrite exec_with_local by reflexivity. cbn [perform fst snd].
    destruct (allowed_ips w !! ip_address r); reflexivity.
  - pass_query.
    change (profiles (resolved_world w rid APPROVED admin)) with (profiles w).
    change (allowed_ips (resolved_world w rid APPROVED admin))
      with (allowed_ips w).
    rewrite Hpa. destruct (allowed_ips w !! ip_address r).
    + cbn [fst snd]. rewrite exec_with_local by reflexivity. reflexivity.
    + reflexivity.
Qed.

End Resolve.

Lemma exec_with_no_fault {R} (n : nat) (p : prog R) (w : world) :
  exec_with (replicate n false) p w = exec p w.
Proof.
  revert n w. induction p as [r|X q k IH]; intros n w; [reflexivity|].
  unfold exec. simpl. destruct (outage q) as [down|].
  - destruct (perform q w) as [a w'].
    destruct n as [|n]; simpl; [reflexivity|]. apply IH.
  - destruct (perform q w) as [a w']. apply IH.
Qed.

(** C8: when an ADMIN approves a PENDING request and the status write goes
    through, the answer is 200 with success true and the action, and the row
    is APPROVED, whether or not the write to [allowed_ips] that follows
    succeeds.  If that write fails, because the address is already listed or
    because the store is unreachable, [allowed_ips] is left as it was and one
    line is written to the error log; otherwise the address is listed and
    nothing is logged. *)
Theorem approve_reports_success_if_insert_fails (w : world) (header : string)
    (admin : auth_user) (rid : uuid) (r : access_request_row)
    (rest : list bool) :
  privileged w header admin →
  rid ≠ "" →
  access_requests w !! rid = Some r →
  status r = PENDING →
  let run := exec_with (false :: false :: false :: false :: rest)
               (resolve (Some header) rid "APPROVE") w in
  let insert_fails :=
    head rest = Some true ∨ is_Some (allowed_ips w !! ip_address r) in
  run.1 = resolved_ok "APPROVE"
  ∧ http_status run.1 = 200
  ∧ field "success" run.1 = Some (JBool true)
  ∧ field "action" run.1 = Some (JString "APPROVE")
  ∧ field "error" run.1 = None
  ∧ access_requests run.2 !! rid
    = Some (resolve_row APPROVED (clock w) (user_id admin) r)
  ∧ (insert_fails →
     allowed_ips run.2 = allowed_ips w
     ∧ console run.2
       = (console w ++ ["Failed to add IP to allowed list:"])%list)
  ∧ (¬ insert_fails →
     is_Some (allowed_ips run.2 !! ip_address r) ∧ console run.2 = console w).
Proof.
  intros Hadmin Hrid Hrow Hst run insert_fails.
  subst run insert_fails.
  rewrite (resolve_approve_run w header admin rid r Hadmin Hrid Hrow rest Hst).
  cbn [fst snd].
  assert (Hupd : ∀ w', access_requests w' = access_requests
                          (resolved_world w rid APPROVED admin) →
            access_requests w' !! rid
            = Some (resolve_row APPROVED (clock w) (user_id admin) r)).
  { intros w' ->. cbn [resolved_world access_requests set_access_requests].
    rewrite lookup_alter_eq, Hrow. reflexivity. }
  repeat (split; [reflexivity|]).
  destruct rest as [|[] rest']; destruct (allowed_ips w !! ip_address r) eqn:Hip;
    (split; [apply Hupd; reflexivity|]); cbn [head]; split;
    try (intros _; split; reflexivity);
    try (intros Hfail; exfalso; apply Hfail; eauto; fail);
    try (intros [Hf|[? Hf]]; discriminate);
    try (intros _; split; [|reflexivity];
         cbn [listed_world allowed_ips set_allowed_ips];
         rewrite lookup_insert_eq; eauto).
Qed.

(** Once an ADMIN has approved a PENDING request, the address of the
    request is in [allowed_ips], and a login of the requesting profile from
    that address whose queries are let through is granted.  The deployed
    function does not get that far. *)
Lemma approve_then_login_granted (w : world) (header : string)
    (admin : auth_user) (rid : uuid) (r : access_request_row)
    (email password : string) (d : auth_data) (p : profile_row) :
  privileged w header admin →
  rid ≠ "" →
  access_requests w !! rid = Some r →
  status r = PENDING →
  signInWithPassword (auth w) email password = Some d →
  user_id (data_user d) = profile_id r →
  profiles w !! profile_id r = Some p →
  role p = "ADMIN" ∨ role p = "CS" →
  let run := exec (resolve (Some header) rid "APPROVE") w in
  run.1 = resolved_ok "APPROVE"
  ∧ is_Some (allowed_ips run.2 !! ip_address r)
  ∧ exec (login email password (ip_address r)) run.2
    = (granted d (view_of p), run.2).
Proof.
  intros Hadmin Hrid Hrow Hst Hok Hid Hprof Hrole run. subst run.
  rewrite <- (exec_with_no_fault 4). cbn [replicate].
  rewrite (resolve_approve_run w header admin rid r Hadmin Hrid Hrow [] Hst).
  cbn [fst snd].
  set (w' := match allowed_ips w !! ip_address r with
             | Some _ => _ | None => _ end).
  assert (Hauth : auth w' = auth w)
    by (subst w'; destruct (allowed_ips w !! ip_address r); reflexivity).
  assert (Hprofs : profiles w' = profiles w)
    by (subst w'; destruct (allowed_ips w !! ip_address r); reflexivity).
  assert (Hlisted : is_Some (allowed_ips w' !! ip_address r)).
  { subst w'. destruct (allowed_ips w !! ip_address r) eqn:Hip.
    - cbn [log_error resolved_world set_access_requests allowed_ips].
      rewrite Hip; eauto.
    - cbn [listed_world allowed_ips set_allowed_ips].
      rewrite lookup_insert_eq; eauto. }
  split; [reflexivity|]. split; [exact Hlisted|].
  clearbody w'. unfold login.
  run_query. rewrite Hauth, Hok.
  run_query. rewrite Hprofs, Hid, Hprof.
  cbn [fmap option_fmap option_map of_lookup].
  destruct Hrole as [Hrole|Hrole].
  - rewrite decide_True by exact Hrole. reflexivity.
  - rewrite decide_False by (simpl; rewrite Hrole; discriminate).
    rewrite decide_True by exact Hrole.
    run_query. destruct Hlisted as [a ->]. reflexivity.
Qed.

(** C7: a request that is APPROVED or DENIED cannot be resolved again.  For
    an ADMIN caller and either action the answer is 400 "Request already
    resolved"; for every caller and every action string the store is left
    exactly as it was, so status, resolved_at and resolved_by of the row keep
    their values and [allowed_ips] gets no row. *)
Theorem resolve_already_resolved (w : world) (rid : uuid)
    (r : access_request_row) :
  access_requests w !! rid = Some r →
  status r ≠ PENDING →
  (∀ header admin action,
     privileged w header admin → rid ≠ "" →
     action = "APPROVE" ∨ action = "DENY" →
     exec (resolve (Some header) rid action) w
     = (error_response 400 "Request already resolved", w))
  ∧ (∀ authHeader action,
       (exec (resolve authHeader rid action) w).2 = w
       ∧ http_status (exec (resolve authHeader rid action) w).1 ≠ 200).
Proof.
  intros Hrow Hst. split.
  - intros header admin action (Hhdr & Huser & Hrole) Hrid Hact.
    unfold resolve. rewrite decide_False by exact Hhdr.
    run_query. rewrite Huser. run_query. rewrite Hrole. cbn [of_lookup].
    rewrite decide_False by (intros Hne; apply Hne; reflexivity).
    rewrite decide_False
      by (intros [?|Hno]; [done | apply Hno; destruct Hact; subst; set_solver]).
    run_query. rewrite Hrow. cbn [fmap option_fmap option_map of_lookup].
    rewrite decide_True by exact Hst. reflexivity.
  - intros authHeader action. unfold resolve.
    destruct authHeader as [header|]; [|split; [reflexivity|discriminate]].
    destruct (decide (header = "")); [split; [reflexivity|discriminate]|].
    run_query.
    destruct (getUser (auth w) _) as [user|];
      [|split; [reflexivity|discriminate]].
    run_query.
    destruct (profiles w !! user_id user) as [pa|];
      cbn [fmap option_fmap option_map of_lookup];
      [|split; [reflexivity|discriminate]].
    destruct (decide (role pa ≠ "ADMIN"));
      [split; [reflexivity|discriminate]|].
    destruct (decide (rid = "" ∨ action ∉ ["APPROVE"; "DENY"]));
      [split; [reflexivity|discriminate]|].
    run_query. rewrite Hrow. cbn [fmap option_fmap option_map of_lookup].
    rewrite decide_True by exact Hst. split; [reflexivity|discriminate].
Qed.

(** ** The [is_active] column *)

Lemma same_up_to_active_refl w : same_up_to_active w w.
Proof. repeat split. Qed.

Lemma same_up_to_active_view w1 w2 id :
  same_up_to_active w1 w2 →
  view_of <$> profiles w1 !! id = view_of <$> profiles w2 !! id.
Proof.
  intros (_ & Hvis & _). apply (f_equal (λ m, m !! id)) in Hvis.
  rewrite !lookup_fmap in Hvis.
  destruct (profiles w1 !! id) as [p1|], (profiles w2 !! id) as [p2|];
    simpl in *; try congruence.
  unfold visible_columns, view_of in *. congruence.
Qed.

Lemma same_up_to_active_role w1 w2 id :
  same_up_to_active w1 w2 →
  role <$> profiles w1 !! id = role <$> profiles w2 !! id.
Proof.
  intros H. pose proof (same_up_to_active_view w1 w2 id H) as Hv.
  destruct (profiles w1 !! id), (profiles w2 !! id); simpl in *;
    unfold view_of in *; congruence.
Qed.

Lemma same_up_to_active_known w1 w2 id :
  same_up_to_active w1 w2 →
  (profiles w1 !! id = None ↔ profiles w2 !! id = None).
Proof.
  intros H. pose proof (same_up_to_active_role w1 w2 id H) as Hv.
  destruct (profiles w1 !! id), (profiles w2 !! id); simpl in *;
    split; congruence.
Qed.

(** No query reads [is_active]: on stores that agree on everything else, a
    query gives the same answer and leaves stores that still agree. *)
Lemma perform_same_up_to_active {X} (q : query X) w1 w2 :
  same_up_to_active w1 w2 →
  (perform q w1).1 = (perform q w2).1
  ∧ same_up_to_active (perform q w1).2 (perform q w2).2.
Proof.
  intros H.
  pose proof H as (Hauth & Hvis & Hips & Hreqs & Hclock & Hcons).
  destruct q; cbn [perform fst snd].
  - rewrite Hauth. done.
  - rewrite Hauth. done.
  - rewrite (same_up_to_active_view w1 w2 id H). done.
  - rewrite (same_up_to_active_role w1 w2 id H). done.
  - rewrite Hips. done.
  - unfold pending_rows. rewrite Hreqs. done.
  - pose proof (same_up_to_active_known w1 w2 pid H) as Hk.
    destruct (profiles w1 !! pid), (profiles w2 !! pid);
      try (exfalso; destruct Hk as [Hk1 Hk2];
           first [specialize (Hk1 eq_refl); discriminate
                 |specialize (Hk2 eq_refl); discriminate]).
    + cbn [fst snd]. unfold fresh_request_id. rewrite Hreqs, Hclock.
      split; [done|]. repeat split; cbn; congruence.
    + done.
  - rewrite Hreqs. done.
  - rewrite Hreqs. done.
  - pose proof (same_up_to_active_known w1 w2 resolver H) as Hk.
    rewrite Hreqs. destruct (access_requests w2 !! id); [|done].
    destruct (profiles w1 !! resolver), (profiles w2 !! resolver);
      try (exfalso; destruct Hk as [Hk1 Hk2];
           first [specialize (Hk1 eq_refl); discriminate
                 |specialize (Hk2 eq_refl); discriminate]).
    + cbn [fst snd].
      split; [done|]. repeat split; cbn; congruence.
    + done.
  - pose proof (same_up_to_active_known w1 w2 creator H) as Hk.
    rewrite Hips.
    destruct (profiles w1 !! creator), (profiles w2 !! creator);
      try (exfalso; destruct Hk as [Hk1 Hk2];
           first [specialize (Hk1 eq_refl); discriminate
                 |specialize (Hk2 eq_refl); discriminate]).
    + destruct (allowed_ips w2 !! ip); cbn [fst snd]; [done|].
      unfold fresh_allowed_ip_id. rewrite Hips, Hclock.
      split; [done|]. repeat split; cbn; congruence.
    + done.
  - rewrite Hclock. done.
  - split; [done|]. repeat split; cbn; congruence.
Qed.

Lemma exec_same_up_to_active {R} (p : prog R) :
  ∀ faults w1 w2,
    same_up_to_active w1 w2 →
    (exec_with faults p w1).1 = (exec_with faults p w2).1
    ∧ same_up_to_active (exec_with faults p w1).2 (exec_with faults p w2).2.
Proof.
  induction p as [r|X q k IH]; intros faults w1 w2 H; [done|].
  destruct (perform_same_up_to_active q w1 w2 H) as [Ha Hw].
  simpl. destruct (outage q) as [down|].
  - destruct faults as [|[] fs]; [| by apply IH |];
      destruct (perform q w1) as [a1 w1'], (perform q w2) as [a2 w2'];
      simpl in Ha, Hw; subst a2; by apply IH.
  - destruct (perform q w1) as [a1 w1'], (perform q w2) as [a2 w2'];
      simpl in Ha, Hw; subst a2; by apply IH.
Qed.

(** C10: the outcome of a login does not depend on [is_active].  On two
    stores that differ at most in the [is_active] flags of their profiles,
    the same credentials and address give the same answer, and the stores
    still differ at most in those flags afterwards. *)
Theorem login_ignores_is_active (w1 w2 : world) (email password ip : string) :
  same_up_to_active w1 w2 →
  (exec (login email password ip) w1).1 = (exec (login email password ip) w2).1
  ∧ same_up_to_active (exec (login email password ip) w1).2
                      (exec (login email password ip) w2).2.
Proof. intros H. by apply exec_same_up_to_active. Qed.

(** ** At most one PENDING request per profile and address *)

Lemma at_most_one_pending_ext (w w' : world) :
  access_requests w' = access_requests w →
  at_most_one_pending w → at_most_one_pending w'.
Proof.
  intros Heq Hw pid ip. unfold pending_rows. rewrite Heq. apply Hw.
Qed.

Lemma single_error_on_small_table {A B} (f : string * A → B) (m : gmap string A) e :
  (size m ≤ 1)%nat →
  single (f <$> map_to_list m) = Err e →
  m = ∅.
Proof.
  intros Hsize Hsingle. apply map_to_list_empty_iff.
  rewrite <- length_map_to_list in Hsize.
  destruct (map_to_list m) as [|x [|y l]]; [reflexivity|discriminate|].
  simpl in Hsize. lia.
Qed.

Lemma at_most_one_pending_insert (w : world) (pid : uuid) (ip : string) id now :
  at_most_one_pending w →
  access_requests w !! id = None →
  pending_rows pid ip w = ∅ →
  at_most_one_pending
    (set_access_requests (<[id := new_request pid ip now]> (access_requests w)) w).
Proof.
  intros Hw Hfree Hnone pid' ip'.
  destruct (decide (pid' = pid ∧ ip' = ip)) as [[-> ->]|Hother].
  - rewrite pending_rows_insert_new by exact Hnone.
    rewrite map_size_singleton. lia.
  - unfold pending_rows; cbn [access_requests set_access_requests].
    rewrite map_filter_insert_not'.
    + apply Hw.
    + unfold pending_for; simpl. intros (<- & <- & _). by apply Hother.
    + intros y Hy. congruence.
Qed.

Lemma at_most_one_pending_resolve (w : world) rid st now by_id :
  st ≠ PENDING →
  at_most_one_pending w →
  at_most_one_pending
    (set_access_requests
       (alter (resolve_row st now by_id) rid (access_requests w)) w).
Proof.
  intros Hst Hw pid ip. etransitivity; [|apply (Hw pid ip)].
  apply map_subseteq_size, map_subseteq_spec. intros j x.
  unfold pending_rows; cbn [access_requests set_access_requests].
  rewrite !map_lookup_filter_Some. intros [Hj HP].
  destruct (decide (rid = j)) as [->|Hne].
  - rewrite lookup_alter_eq in Hj.
    destruct (access_requests w !! j) as [y|]; [|discriminate].
    simpl in Hj. injection Hj as <-.
    destruct HP as (_ & _ & HP). simpl in HP. congruence.
  - rewrite lookup_alter_ne in Hj by exact Hne. done.
Qed.

Lemma login_keeps_one_pending (w : world) (email password ip : string) :
  at_most_one_pending w →
  at_most_one_pending (exec (login email password ip) w).2.
Proof.
  intros Hw. unfold login. run_query.
  destruct (signInWithPassword (auth w) email password) as [d|]; [|exact Hw].
  run_query.
  destruct (profiles w !! user_id (data_user d)) as [p|] eqn:Hprof;
    cbn [fmap option_fmap option_map of_lookup]; [|exact Hw].
  destruct (decide (pv_role (view_of p) = "ADMIN")); [exact Hw|].
  destruct (decide (pv_role (view_of p) = "CS")); [|exact Hw].
  run_query.
  destruct (allowed_ips w !! ip);
    cbn [fmap option_fmap option_map of_lookup]; [exact Hw|].
  run_query.
  destruct (single _) as [[existing st]|err] eqn:Hlookup; [exact Hw|].
  apply single_error_on_small_table in Hlookup; [|apply Hw].
  run_query. rewrite Hprof. cbn [fst snd].
  apply at_most_one_pending_insert;
    [exact Hw | apply fresh_request_id_free | exact Hlookup].
Qed.

Lemma resolve_keeps_one_pending (w : world) authHeader request_id action :
  at_most_one_pending w →
  at_most_one_pending (exec (resolve authHeader request_id action) w).2.
Proof.
  intros Hw. unfold resolve.
  destruct authHeader as [header|]; [|exact Hw].
  destruct (decide (header = "")); [exact Hw|].
  run_query. destruct (getUser (auth w) _) as [user|]; [|exact Hw].
  run_query.
  destruct (profiles w !! user_id user) as [pa|] eqn:Hpa;
    cbn [fmap option_fmap option_map of_lookup]; [|exact Hw].
  destruct (decide (role pa ≠ "ADMIN")); [exact Hw|].
  destruct (decide (request_id = "" ∨ action ∉ ["APPROVE"; "DENY"]));
    [exact Hw|].
  run_query.
  destruct (access_requests w !! request_id) as [r|] eqn:Hrow;
    cbn [fmap option_fmap option_map of_lookup]; [|exact Hw].
  destruct (decide (status r ≠ PENDING)); [exact Hw|].
  run_query. run_query. rewrite Hrow, Hpa. cbn [fst snd].
  set (st := if decide (action = "APPROVE") then APPROVED else DENIED).
  assert (Hst : st ≠ PENDING) by (subst st; case_decide; discriminate).
  pose proof (at_most_one_pending_resolve w request_id st (clock w)
                (user_id user) Hst Hw) as Hw1.
  destruct (decide (action = "APPROVE")); [|exact Hw1].
  run_query. cbn [profiles allowed_ips set_access_requests]. rewrite Hpa.
  destruct (allowed_ips w !! ip_address r); cbn [fst snd].
  - run_query. exact Hw1.
  - rewrite exec_ret. exact Hw1.
Qed.

(** Served one after the other, the three entry points keep the invariant. *)
Lemma sequential_requests_keep_one_pending (w0 w : world) :
  at_most_one_pending w0 →
  reachable_seq w0 w →
  at_most_one_pending w.
Proof.
  intros H0. induction 1 as [|c w _ IH]; [exact H0|].
  destruct c; simpl.
  - by apply login_keeps_one_pending.
  - unfold request_status_of. run_query.
    destruct (access_requests w !! requestId); exact IH.
  - by apply resolve_keeps_one_pending.
Qed.

(** ** Two logins at the same time *)

(** The lookup of a PENDING request and the insert that follows it are two
    separate queries.  With their queries let through, two logins of the
    same CS user from the same address, each running its lookup before the
    other's insert, both find no PENDING row and both insert one: the store
    ends with two PENDING rows for that pair and two request ids handed out.
    From then on the lookup finds two rows, [.single()] fails, and every
    further login inserts one more. *)
Lemma concurrent_logins_leave_two_pending :
  let p := login "cs@fmf.com" "password123" "10.0.0.5" in
  let run := run_schedule [0; 0; 0; 0; 1; 1; 1; 1; 0; 1] [p; p] Demo.w0 in
  at_most_one_pending Demo.w0
  ∧ run.1 = [Ret (pending_approval "0"); Ret (pending_approval "1")]
  ∧ size (pending_rows "u-cs" "10.0.0.5" run.2) = 2
  ∧ ¬ at_most_one_pending run.2
  ∧ (exec p run.2).1 = pending_approval "2"
  ∧ size (pending_rows "u-cs" "10.0.0.5" (exec p run.2).2) = 3.
Proof.
  intros p run.
  assert (Htwo : size (pending_rows "u-cs" "10.0.0.5" run.2) = 2)
    by (vm_compute; reflexivity).
  split; [|split; [|split; [|split; [|split]]]].
  - intros pid ip. unfold pending_rows. cbn [Demo.w0 access_requests].
    rewrite map_filter_empty, map_size_empty. lia.
  - vm_compute. reflexivity.
  - exact Htwo.
  - intros Hinv. specialize (Hinv "u-cs" "10.0.0.5"). rewrite Htwo in Hinv. lia.
  - vm_compute. reflexivity.
  - vm_compute. reflexivity.
Qed.

(** ** The statements at the demo deployment *)

Lemma login_invalid_credentials_demo :
  signInWithPassword (auth Demo.w0) "cs@fmf.com" "letmein" = None
  ∧ exec_with [false; true] (login "cs@fmf.com" "letmein" "10.0.0.5") Demo.w0
    = (error_response 401 "Invalid credentials", Demo.w0).
Proof.
  split; [reflexivity|].
  apply (login_invalid_credentials Demo.w0 "cs@fmf.com" "letmein" "10.0.0.5"
           [false; true]).
  reflexivity.
Defined.

Lemma login_deferred_has_no_session_demo :
  is_deferred (exec_with [] (login "cs@fmf.com" "password123" "10.0.0.5")
                 Demo.w0).1
  ∧ keys (exec_with [] (login "cs@fmf.com" "password123" "10.0.0.5")
            Demo.w0).1
    = ["success"; "status"; "message"; "request_id"]
  ∧ field "session" (exec_with [] (login "cs@fmf.com" "password123" "10.0.0.5")
                       Demo.w0).1 = None.
Proof.
  assert (Hdef : is_deferred
            (exec_with [] (login "cs@fmf.com" "password123" "10.0.0.5")
               Demo.w0).1) by (vm_compute; reflexivity).
  split; [exact Hdef|].
  destruct (login_deferred_has_no_session [] Demo.w0
              "cs@fmf.com" "password123" "10.0.0.5" Hdef)
    as (_ & Hkeys & _ & _ & _ & Hsession).
  split; [exact Hkeys | exact Hsession].
Defined.

Lemma demo_admin_privileged (w : world) :
  auth w = Demo.idp →
  profiles w = profiles Demo.w0 →
  privileged w "Bearer tok-admin" Demo.admin_user.
Proof.
  intros Hauth Hprofs. unfold privileged. rewrite Hauth, Hprofs.
  split; [discriminate|]. split; vm_compute; reflexivity.
Defined.

Lemma resolve_already_resolved_demo :
  status <$> access_requests Demo.w2 !! "0" = Some APPROVED
  ∧ exec (resolve (Some "Bearer tok-admin") "0" "DENY") Demo.w2
    = (error_response 400 "Request already resolved", Demo.w2)
  ∧ (exec (resolve (Some "Bearer tok-cs") "0" "APPROVE") Demo.w2).2 = Demo.w2.
Proof.
  assert (Hrow : access_requests Demo.w2 !! "0"
                 = Some (resolve_row APPROVED 7 "u-admin"
                           (new_request "u-cs" "10.0.0.5" 7)))
    by (vm_compute; reflexivity).
  split; [rewrite Hrow; reflexivity|].
  destruct (resolve_already_resolved Demo.w2 "0" _ Hrow ltac:(discriminate))
    as [Hadmin Hany].
  split.
  - apply (Hadmin "Bearer tok-admin" Demo.admin_user "DENY");
      [apply demo_admin_privileged; reflexivity | discriminate | by right].
  - apply (Hany (Some "Bearer tok-cs") "APPROVE").
Defined.

Lemma approve_reports_success_if_insert_fails_demo :
  access_requests Demo.w1 !! "0" = Some (new_request "u-cs" "10.0.0.5" 7)
  ∧ (exec_with [false; false; false; false; true]
       (resolve (Some "Bearer tok-admin") "0" "APPROVE") Demo.w1).1
    = resolved_ok "APPROVE"
  ∧ console (exec_with [false; false; false; false; true]
               (resolve (Some "Bearer tok-admin") "0" "APPROVE") Demo.w1).2
    = ["Failed to add IP to allowed list:"].
Proof.
  assert (Hrow : access_requests Demo.w1 !! "0"
                 = Some (new_request "u-cs" "10.0.0.5" 7))
    by (vm_compute; reflexivity).
  split; [exact Hrow|].
  destruct (approve_reports_success_if_insert_fails Demo.w1
              "Bearer tok-admin" Demo.admin_user "0"
              (new_request "u-cs" "10.0.0.5" 7) [true]
              (demo_admin_privileged Demo.w1 eq_refl eq_refl)
              ltac:(discriminate) Hrow eq_refl)
    as (Hresp & _ & _ & _ & _ & _ & Hfail & _).
  split; [exact Hresp|].
  destruct (Hfail (or_introl eq_refl)) as [_ Hlog]. exact Hlog.
Defined.

Lemma login_ignores_is_active_demo :
  is_active <$> profiles Demo.w0 !! "u-cs" = Some true
  ∧ is_active <$> profiles Demo.w0_inactive !! "u-cs" = Some false
  ∧ (exec (login "cs@fmf.com" "password123" "10.0.0.5") Demo.w0).1
    = (exec (login "cs@fmf.com" "password123" "10.0.0.5") Demo.w0_inactive).1.
Proof.
  split; [vm_compute; reflexivity|]. split; [vm_compute; reflexivity|].
  apply (login_ignores_is_active Demo.w0 Demo.w0_inactive).
  repeat split; vm_compute; reflexivity.
Defined.

(** ** Every run of the login *)

Lemma exec_with_vis {R X} (q : query X) (k : X → prog R) faults w :
  exec_with faults (Vis q k) w
  = exec_with (after faults q) (k (attempt faults q w).1) (attempt faults q w).2.
Proof.
  simpl. unfold attempt, after.
  destruct (outage q); [destruct faults as [|[] fs]|];
    destruct (perform q w); reflexivity.
Qed.

Lemma attempt_cases {X} (q : query X) faults w :
  attempt faults q w = perform q w
  ∨ ∃ down, outage q = Some down ∧ attempt faults q w = (down, w).
Proof.
  unfold attempt. destruct (outage q) as [down|]; [|by left].
  destruct faults as [|[] fs]; eauto.
Qed.

Ltac try_query :=
  rewrite exec_with_vis;
  let Ha := fresh "Ha" in
  let Hd := fresh "Hd" in
  let down := fresh "down" in
  match goal with
  | |- context [attempt ?f ?q ?w] =>
      destruct (attempt_cases q f w) as [Ha|(down & Hd & Ha)]
  end;
  rewrite Ha; clear Ha;
  [cbn [perform fst snd]
  |cbn [outage] in Hd; injection Hd as <-; cbn [fst snd]].

Lemma single_ok_singleton {A B} (f : string * A → B) (m : gmap string A) y :
  single (f <$> map_to_list m) = Ok y →
  ∃ i x, m = {[ i := x ]} ∧ y = f (i, x).
Proof.
  intros Hsingle.
  destruct (map_to_list m) as [|[i x] [|? ?]] eqn:Hl; try discriminate.
  simpl in Hsingle. injection Hsingle as <-.
  exists i, x. split; [|reflexivity].
  rewrite <- (list_to_map_to_list m), Hl. reflexivity.
Qed.

Lemma login_runs (faults : list bool) (w : world) (email password ip : string) :
  login_outcome w email password ip
    (exec_with faults (login email password ip) w).
Proof.
  unfold login. try_query; [|constructor].
  destruct (signInWithPassword (auth w) email password) as [d|] eqn:Hok;
    [|constructor].
  try_query; [|econstructor; eassumption].
  destruct (profiles w !! user_id (data_user d)) as [p|] eqn:Hprof;
    cbn [fmap option_fmap option_map of_lookup];
    [|econstructor; eassumption].
  destruct (decide (pv_role (view_of p) = "ADMIN")) as [Hadm|Hadm];
    [eapply login_admin; eassumption|].
  destruct (decide (pv_role (view_of p) = "CS")) as [Hcs|Hcs];
    [|eapply login_403; eassumption].
  simpl in Hcs.
  assert (Hrest : ∀ fs,
    login_outcome w email password ip
      (exec_with fs
         (await existingRequest <-
            SelectPendingRequest (user_id (data_user d)) ip ;;
          match existingRequest with
          | Ok (requestId, _) => Ret (pending_approval requestId)
          | Err _ =>
            await newRequest <-
              InsertAccessRequest (user_id (data_user d)) ip ;;
            match newRequest with
            | Err _ =>
                Ret (error_response 500 "Failed to create access request")
            | Ok requestId => Ret (pending_approval requestId)
            end
          end) w)).
  { intros fs. try_query.
    - destruct (single _) as [[rid st]|err] eqn:Hlookup.
      + apply single_ok_singleton in Hlookup as (i & x & Hm & Heq).
        injection Heq as -> ->. eapply login_reuse; eassumption.
      + try_query; [|eapply login_500; eassumption].
        rewrite Hprof. cbn [fst snd]. eapply login_queue; eassumption.
    - try_query; [|eapply login_500; eassumption].
      rewrite Hprof. cbn [fst snd]. eapply login_queue; eassumption. }
  try_query.
  - destruct (allowed_ips w !! ip) as [a|] eqn:Hip;
      cbn [fmap option_fmap option_map of_lookup].
    + eapply login_listed; eauto.
    + apply Hrest.
  - apply Hrest.
Qed.

(** ** Every run of the resolver *)

Lemma resolve_runs (faults : list bool) (w : world)
    (authHeader : option string) (request_id action : string) :
  resolve_outcome w authHeader request_id action
    (exec_with faults (resolve authHeader request_id action) w).
Proof.
  unfold resolve.
  destruct authHeader as [header|];
    [|apply resolve_refused; simpl; tauto].
  destruct (decide (header = "")) as [|Hhdr];
    [apply resolve_refused; simpl; tauto|].
  try_query; [|apply resolve_refused; simpl; tauto].
  destruct (getUser (auth w) _) as [user|] eqn:Huser;
    [|apply resolve_refused; simpl; tauto].
  try_query; [|apply resolve_refused; simpl; tauto].
  destruct (role <$> profiles w !! user_id user) as [profileRole|] eqn:Hrole;
    cbn [of_lookup]; [|apply resolve_refused; simpl; tauto].
  destruct (decide (profileRole ≠ "ADMIN")) as [|Hadm];
    [apply resolve_refused; simpl; tauto|].
  apply dec_stable in Hadm. subst profileRole.
  assert (Hpriv : privileged w header user) by done.
  destruct (decide (request_id = "" ∨ action ∉ ["APPROVE"; "DENY"]))
    as [|Hparams]; [apply resolve_refused; simpl; tauto|].
  assert (Hrid : request_id ≠ "") by (intros Hempty; apply Hparams; by left).
  assert (Hact : action = "APPROVE" ∨ action = "DENY").
  { destruct (decide (action = "APPROVE")); [by left|].
    destruct (decide (action = "DENY")); [by right|].
    exfalso. apply Hparams. right.
    rewrite !not_elem_of_cons. repeat split; [done|done|apply not_elem_of_nil]. }
  try_query; [|apply resolve_refused; simpl; tauto].
  destruct (access_requests w !! request_id) as [r|] eqn:Hrow;
    cbn [fmap option_fmap option_map of_lookup];
    [|apply resolve_refused; simpl; tauto].
  destruct (decide (status r ≠ PENDING)) as [|Hst];
    [apply resolve_refused; simpl; tauto|].
  apply dec_stable in Hst.
  rewrite exec_with_vis. cbn [attempt after outage perform fst snd].
  try_query; [|apply resolve_refused; simpl; tauto].
  rewrite Hrow.
  destruct (profiles w !! user_id user) as [pa|] eqn:Hpa; [|discriminate].
  cbn [fst snd].
  destruct Hact as [-> | ->].
  - rewrite !(decide_True (P := "APPROVE" = "APPROVE")) by reflexivity.
    fold (resolved_world w request_id APPROVED user).
    try_query.
    + change (profiles (resolved_world w request_id APPROVED user))
        with (profiles w).
      change (allowed_ips (resolved_world w request_id APPROVED user))
        with (allowed_ips w).
      rewrite Hpa. destruct (allowed_ips w !! ip_address r) eqn:Hip;
        cbn [fst snd].
      * rewrite exec_with_vis. cbn [attempt after outage perform fst snd].
        eapply resolve_approved_unlisted; eauto.
      * eapply resolve_approved; eauto.
    + rewrite exec_with_vis. cbn [attempt after outage perform fst snd].
      eapply resolve_approved_unlisted; eauto.
  - rewrite !(decide_False (P := "DENY" = "APPROVE")) by discriminate.
    eapply resolve_denied; eauto.
Qed.

(** ** What the login grants, and what it writes *)

Lemma not_granted_error code msg : ¬ is_granted (error_response code msg).
Proof. discriminate. Qed.

Lemma not_granted_pending rid : ¬ is_granted (pending_approval rid).
Proof. discriminate. Qed.

(** X1: the address gate is sound.  Whatever outages occur, [login] answers
    success only for credentials the identity store accepts and a profile
    that is ADMIN, or CS with the client address present in [allowed_ips] at
    the time of the call; the answer is then the granted body and nothing is
    written. *)
Theorem login_grants_only_admin_or_listed (faults : list bool) (w : world)
    (email password ip : string) :
  is_granted (exec_with faults (login email password ip) w).1 →
  ∃ d p,
    signInWithPassword (auth w) email password = Some d
    ∧ profiles w !! user_id (data_user d) = Some p
    ∧ (role p = "ADMIN" ∨ (role p = "CS" ∧ is_Some (allowed_ips w !! ip)))
    ∧ exec_with faults (login email password ip) w
      = (granted d (view_of p), w).
Proof.
  intros Hg. pose proof (login_runs faults w email password ip) as Hrun.
  destruct (exec_with faults (login email password ip) w) as [r w'].
  cbn [fst] in Hg.
  inversion Hrun; subst;
    try (exfalso; revert Hg;
         first [apply not_granted_error | apply not_granted_pending]).
  - exists d, p. eauto 10.
  - exists d, p. eauto 10.
Qed.

(** X2: a login never touches [profiles], [allowed_ips] or the error log, and
    leaves every existing request row as it is; at most it adds one PENDING
    row for the caller and the client address, under a key that was free.
    This holds for every outcome and under every outage. *)
Theorem login_writes_at_most_one_request (faults : list bool) (w : world)
    (email password ip : string) :
  let w' := (exec_with faults (login email password ip) w).2 in
  auth w' = auth w
  ∧ profiles w' = profiles w
  ∧ allowed_ips w' = allowed_ips w
  ∧ clock w' = clock w
  ∧ console w' = console w
  ∧ (access_requests w' = access_requests w
     ∨ ∃ d,
         signInWithPassword (auth w) email password = Some d
         ∧ access_requests w !! fresh_request_id w = None
         ∧ access_requests w'
           = <[fresh_request_id w :=
                 new_request (user_id (data_user d)) ip (clock w)]>
               (access_requests w)).
Proof.
  intros w'. subst w'.
  pose proof (login_runs faults w email password ip) as Hrun.
  destruct (exec_with faults (login email password ip) w) as [r w'].
  cbn [snd].
  inversion Hrun; subst; repeat (split; [reflexivity|]);
    try (left; reflexivity).
  right. exists d. split; [assumption|].
  split; [apply fresh_request_id_free | reflexivity].
Qed.

Section LoginBranches.
Variables (w : world) (email password ip : string) (d : auth_data).
Hypothesis Hok : signInWithPassword (auth w) email password = Some d.

(** X4: an identity without a row in [profiles] is answered 404 "Profile not
    found", and nothing is written. *)
Theorem login_profile_missing :
  profiles w !! user_id (data_user d) = None →
  exec (login email password ip) w
  = (error_response 404 "Profile not found", w).
Proof.
  intros Hprof. unfold login. run_query. rewrite Hok.
  run_query. rewrite Hprof. reflexivity.
Qed.

End LoginBranches.

(** ** What the resolver refuses, and what it writes *)

(** X8: the resolver wants an Authorization header and a token the identity
    store knows.  Without a header, or with an empty one, it answers 401
    "Authorization required" before sending any query; with a token that
    is not known it answers 401 "Invalid authentication".  Nothing is
    written in either case. *)
Theorem resolve_unauthenticated (w : world) (request_id action : string) :
  (∀ authHeader faults,
     authHeader = None ∨ authHeader = Some "" →
     exec_with faults (resolve authHeader request_id action) w
       = (error_response 401 "Authorization required", w)
     ∧ sent_with faults (resolve authHeader request_id action) w = [])
  ∧ (∀ header,
       header ≠ "" →
       getUser (auth w) (remove_first "Bearer " header) = None →
       exec (resolve (Some header) request_id action) w
       = (error_response 401 "Invalid authentication", w)).
Proof.
  split.
  - intros authHeader faults [-> | ->]; split; reflexivity.
  - intros header Hhdr Hnone. unfold resolve.
    rewrite decide_False by exact Hhdr. run_query. rewrite Hnone. reflexivity.
Qed.

(** X9: a caller whose profile is missing or has a role other than ADMIN is
    answered 403 "Admin access required" whatever the request id and the
    action are; the request table is not read and nothing is written. *)
Theorem resolve_requires_admin (w : world) (header : string) (user : auth_user)
    (request_id action : string) :
  header ≠ "" →
  getUser (auth w) (remove_first "Bearer " header) = Some user →
  role <$> profiles w !! user_id user ≠ Some "ADMIN" →
  exec (resolve (Some header) request_id action) w
  = (error_response 403 "Admin access required", w)
  ∧ sent_with [] (resolve (Some header) request_id action) w
    = [Sent (AuthGetUser (remove_first "Bearer " header));
       Sent (SelectProfileRole (user_id user))].
Proof.
  intros Hhdr Huser Hrole. split.
  - unfold resolve. rewrite decide_False by exact Hhdr.
    run_query. rewrite Huser. run_query.
    destruct (role <$> profiles w !! user_id user) as [profileRole|];
      cbn [of_lookup]; [|reflexivity].
    rewrite decide_True by congruence. reflexivity.
  - unfold resolve. rewrite decide_False by exact Hhdr.
    cbn [sent_with outage perform tail]. rewrite Huser.
    cbn [sent_with outage perform tail].
    destruct (role <$> profiles w !! user_id user) as [profileRole|];
      cbn [of_lookup]; [|reflexivity].
    rewrite decide_True by congruence. reflexivity.
Qed.

Section ResolveBranches.
Variables (w : world) (header : string) (admin : auth_user).
Hypothesis Hadmin : privileged w header admin.

(** X10: for an ADMIN caller, an empty request id or an action other than
    APPROVE and DENY is answered 400 "Invalid request parameters"; the
    request table is not read, so the answer is the same whether or not the
    id names a PENDING request, and nothing is written. *)
Theorem resolve_bad_parameters (request_id action : string) :
  request_id = "" ∨ (action ≠ "APPROVE" ∧ action ≠ "DENY") →
  exec (resolve (Some header) request_id action) w
  = (error_response 400 "Invalid request parameters", w)
  ∧ sent_with [] (resolve (Some header) request_id action) w
    = [Sent (AuthGetUser (remove_first "Bearer " header));
       Sent (SelectProfileRole (user_id admin))].
Proof.
  intros Hbad. destruct Hadmin as (Hhdr & Huser & Hrole).
  assert (Hparams : request_id = "" ∨ action ∉ ["APPROVE"; "DENY"]).
  { destruct Hbad as [?|[? ?]]; [by left|right].
    rewrite !not_elem_of_cons. repeat split; [done|done|apply not_elem_of_nil]. }
  split.
  - unfold resolve. rewrite decide_False by exact Hhdr.
    run_query. rewrite Huser. run_query. rewrite Hrole. cbn [of_lookup].
    rewrite decide_False by (intros Hne; apply Hne; reflexivity).
    rewrite decide_True by exact Hparams. reflexivity.
  - unfold resolve. rewrite decide_False by exact Hhdr.
    cbn [sent_with outage perform tail]. rewrite Huser.
    cbn [sent_with outage perform tail]. rewrite Hrole. cbn [of_lookup].
    rewrite decide_False by (intros Hne; apply Hne; reflexivity).
    rewrite decide_True by exact Hparams. reflexivity.
Qed.


Lemma resolve_deny_run (request_id : string) (r : access_request_row) :
  request_id ≠ "" →
  access_requests w !! request_id = Some r →
  status r = PENDING →
  exec (resolve (Some header) request_id "DENY") w
  = (resolved_ok "DENY", resolved_world w request_id DENIED admin).
Proof.
  intros Hrid Hrow Hst.
  destruct (privileged_profile w header admin Hadmin) as [pa Hpa].
  destruct Hadmin as (Hhdr & Huser & Hrole).
  unfold resolve. rewrite decide_False by exact Hhdr.
  run_query. rewrite Huser. run_query. rewrite Hrole. cbn [of_lookup].
  rewrite decide_False by (intros Hne; apply Hne; reflexivity).
  rewrite decide_False by (intros [?|Hno]; [done | apply Hno; set_solver]).
  run_query. rewrite Hrow. cbn [fmap option_fmap option_map of_lookup].
  rewrite Hst. rewrite decide_False by (intros Hne; apply Hne; reflexivity).
  run_query. run_query. rewrite Hrow, Hpa. cbn [fst snd].
  rewrite !(decide_False (P := "DENY" = "APPROVE")) by discriminate.
  reflexivity.
Qed.

(** X12: denying a PENDING request marks the row DENIED, stamps it with the
    current time and the caller's id, and leaves [allowed_ips] and the error
    log as they were; the answer is 200 with success true, the action DENY
    and the message the code builds from it, "Access request denyd
    successfully". *)
Theorem resolve_deny_effect (request_id : string) (r : access_request_row) :
  request_id ≠ "" →
  access_requests w !! request_id = Some r →
  status r = PENDING →
  let run := exec (resolve (Some header) request_id "DENY") w in
  run.1 = respond 200 [("success", JBool true); ("action", JString "DENY");
                       ("message",
                        JString "Access request denyd successfully")]
  ∧ access_requests run.2
    = <[request_id := resolve_row DENIED (clock w) (user_id admin) r]>
        (access_requests w)
  ∧ allowed_ips run.2 = allowed_ips w
  ∧ console run.2 = console w.
Proof.
  intros Hrid Hrow Hst run. subst run.
  rewrite (resolve_deny_run request_id r Hrid Hrow Hst).
  cbn [fst snd resolved_world access_requests allowed_ips console
       set_access_requests].
  split; [reflexivity|]. split; [|split; reflexivity].
  apply map_eq. intros j. destruct (decide (request_id = j)) as [->|Hne].
  - rewrite lookup_alter_eq, lookup_insert_eq, Hrow. reflexivity.
  - rewrite lookup_alter_ne, lookup_insert_ne by exact Hne. reflexivity.
Qed.

End ResolveBranches.

(** X13: the resolver writes only for an ADMIN caller, a valid action and a
    request that is PENDING.  Whatever outages occur, a run that leaves the
    store different from what it found was made with a token of an ADMIN
    profile, for a row that was PENDING, with action APPROVE or DENY, and was
    answered 200. *)
Theorem resolve_writes_only_for_admin_on_pending (faults : list bool)
    (w : world) (authHeader : option string) (request_id action : string) :
  (exec_with faults (resolve authHeader request_id action) w).2 ≠ w →
  ∃ header user r,
    authHeader = Some header
    ∧ privileged w header user
    ∧ access_requests w !! request_id = Some r
    ∧ status r = PENDING
    ∧ (action = "APPROVE" ∨ action = "DENY")
    ∧ http_status (exec_with faults (resolve authHeader request_id action) w).1
      = 200.
Proof.
  intros Hchanged.
  pose proof (resolve_runs faults w authHeader request_id action) as Hrun.
  destruct (exec_with faults (resolve authHeader request_id action) w)
    as [resp w'].
  cbn [fst snd] in *.
  inversion Hrun; subst; [done| | |]; exists header, user, r; eauto 10.
Qed.


(** ** What holds after any sequence of requests *)

Lemma request_step_refl (w w' : world) :
  auth w' = auth w → profiles w' = profiles w →
  access_requests w' = access_requests w → allowed_ips w' = allowed_ips w →
  request_step w w'.
Proof.
  intros Hauth Hprofs Hreqs Hips. unfold request_step.
  rewrite Hauth, Hprofs, Hreqs, Hips.
  repeat split; [eauto | congruence | eauto].
Qed.

Lemma request_step_insert (w : world) (pid : uuid) (ip : string) :
  request_step w
    (set_access_requests
       (<[fresh_request_id w := new_request pid ip (clock w)]>
          (access_requests w)) w).
Proof.
  pose proof (fresh_request_id_free w) as Hfree.
  unfold request_step. cbn [auth profiles allowed_ips access_requests
                            set_access_requests].
  repeat split; [| |eauto].
  - intros rid r Hr. left. rewrite lookup_insert_ne by congruence. exact Hr.
  - intros rid r' Hr' Hnone.
    destruct (decide (fresh_request_id w = rid)) as [<-|Hne].
    + rewrite lookup_insert_eq in Hr'. injection Hr' as <-. eauto.
    + rewrite lookup_insert_ne in Hr' by exact Hne. congruence.
Qed.

Lemma request_step_resolved (w w' : world) (header : string) (user : auth_user)
    (rid : uuid) (r : access_request_row) (st : request_status) :
  privileged w header user →
  access_requests w !! rid = Some r →
  status r = PENDING →
  st ≠ PENDING →
  auth w' = auth w → profiles w' = profiles w →
  access_requests w' = access_requests (resolved_world w rid st user) →
  (∀ ip, is_Some (allowed_ips w' !! ip) →
         is_Some (allowed_ips w !! ip) ∨ (st = APPROVED ∧ ip = ip_address r)) →
  request_step w w'.
Proof.
  intros Hpriv Hrow Hpending Hst Hauth Hprofs Hreqs Hips.
  destruct (privileged_profile w header user Hpriv) as [pa Hpa].
  assert (Hrole : role pa = "ADMIN").
  { destruct Hpriv as (_ & _ & Hrole). rewrite Hpa in Hrole. simpl in Hrole.
    congruence. }
  assert (Hnew : access_requests w' !! rid
                 = Some (resolve_row st (clock w) (user_id user) r)).
  { rewrite Hreqs. cbn [resolved_world access_requests set_access_requests].
    rewrite lookup_alter_eq, Hrow. reflexivity. }
  unfold request_step. repeat split; [exact Hauth | exact Hprofs | | |].
  - intros j x Hj. destruct (decide (rid = j)) as [<-|Hne].
    + right. assert (x = r) as -> by congruence.
      split; [exact Hpending|]. exists st, (user_id user), pa. done.
    + left. rewrite Hreqs.
      cbn [resolved_world access_requests set_access_requests].
      rewrite lookup_alter_ne by exact Hne. exact Hj.
  - intros j x Hj Hnone. exfalso. rewrite Hreqs in Hj.
    cbn [resolved_world access_requests set_access_requests] in Hj.
    destruct (decide (rid = j)) as [<-|Hne]; [congruence|].
    rewrite lookup_alter_ne in Hj by exact Hne. congruence.
  - intros ip Hip. destruct (Hips ip Hip) as [?|[-> ->]]; [by left|right].
    exists rid, (resolve_row APPROVED (clock w) (user_id user) r),
      (user_id user), pa.
    rewrite Hprofs. done.
Qed.

Lemma status_query_frame (faults : list bool) (w : world) (requestId : string) :
  (exec_with faults (request_status_of requestId) w).2 = w.
Proof.
  unfold request_status_of. simpl.
  destruct faults as [|[] fs];
    destruct (access_requests w !! requestId) as [r|]; reflexivity.
Qed.

Lemma handle_step (faults : list bool) (c : call) (w : world) :
  request_step w (exec_with faults (handle c) w).2.
Proof.
  destruct c as [email password ip|requestId|authHeader request_id action];
    cbn [handle].
  - pose proof (login_runs faults w email password ip) as Hrun.
    destruct (exec_with faults (login email password ip) w) as [resp w'].
    cbn [snd].
    inversion Hrun; subst;
      first [by apply request_step_refl | apply request_step_insert].
  - rewrite status_query_frame. by apply request_step_refl.
  - pose proof (resolve_runs faults w authHeader request_id action) as Hrun.
    destruct (exec_with faults (resolve authHeader request_id action) w)
      as [resp w'].
    cbn [snd].
    inversion Hrun; subst.
    + by apply request_step_refl.
    + eapply (request_step_resolved _ _ _ _ _ _ DENIED); eauto.
    + eapply (request_step_resolved _ _ _ _ _ _ APPROVED); eauto.
      intros ip.
      cbn [listed_world resolved_world allowed_ips set_allowed_ips
           set_access_requests].
      destruct (decide (ip_address r = ip)) as [<-|Hne]; [by right|].
      rewrite lookup_insert_ne by exact Hne. by left.
    + eapply (request_step_resolved _ _ _ _ _ _ APPROVED); eauto.
Qed.

Lemma approved_by_admin_step (w w' : world) (ip : string) :
  request_step w w' → approved_by_admin w ip → approved_by_admin w' ip.
Proof.
  intros (_ & Hprofs & Hrows & _) (rid & r & admin & p & Hr & Hip & Hst & Hby & Hp & Hrole).
  exists rid, r, admin, p. rewrite Hprofs.
  destruct (Hrows rid r Hr) as [?|[Hpending _]]; [done|congruence].
Qed.

(** X16: served one after the other, requests leave a resolved request as
    it is.  Once a row is APPROVED or DENIED, no sequence of logins, status
    queries and resolutions in which each request is answered before the
    next one starts, with or without outages, changes its status, its
    resolution time or its resolver.  A resolution that overlaps another
    one can do so. *)
Theorem resolved_requests_are_final (w w' : world) (rid : uuid)
    (r : access_request_row) :
  access_requests w !! rid = Some r →
  status r ≠ PENDING →
  reachable_faulty w w' →
  access_requests w' !! rid = Some r.
Proof.
  intros Hr Hst. induction 1 as [|c faults w1 _ IH]; [exact Hr|].
  destruct (handle_step faults c w1) as (_ & _ & Hrows & _).
  destruct (Hrows rid r IH) as [?|[? _]]; done.
Qed.

(** X17: requests are never deleted and never re-addressed.  After any
    sequence of requests, a row that was in [access_requests] is still there
    under the same id, for the same profile and address and with the same
    request time. *)
Theorem requests_are_never_deleted (w w' : world) (rid : uuid)
    (r : access_request_row) :
  access_requests w !! rid = Some r →
  reachable_faulty w w' →
  ∃ r', access_requests w' !! rid = Some r'
        ∧ profile_id r' = profile_id r
        ∧ ip_address r' = ip_address r
        ∧ requested_at r' = requested_at r.
Proof.
  intros Hr. induction 1 as [|c faults w1 _ IH]; [by exists r|].
  destruct IH as (r1 & Hr1 & Hpid & Hip & Hat).
  destruct (handle_step faults c w1) as (_ & _ & Hrows & _).
  destruct (Hrows rid r1 Hr1) as [?|(_ & st & admin & p & _ & Hnew & _)].
  - exists r1. done.
  - eexists. split; [exact Hnew|]. done.
Qed.

(** X18: served one after the other, requests add to [allowed_ips] only
    what an administrator approved.  After any sequence of requests in which
    each is answered before the next one starts, an allowed address was
    either allowed at the start or is the address of a request that is
    APPROVED and whose resolver is a profile with role ADMIN.  A denial
    that overlaps the approval breaks this. *)
Theorem listed_addresses_were_approved (w0 w : world) (ip : string) :
  reachable_faulty w0 w →
  is_Some (allowed_ips w !! ip) →
  is_Some (allowed_ips w0 !! ip) ∨ approved_by_admin w ip.
Proof.
  induction 1 as [|c faults w1 _ IH]; [by left|].
  intros Hip. pose proof (handle_step faults c w1) as Hstep.
  destruct Hstep as (Hauth & Hprofs & Hrows & Hnew & Hips).
  destruct (Hips ip Hip) as [Hold|?]; [|by right].
  destruct (IH Hold) as [?|Happr]; [by left|right].
  eapply approved_by_admin_step; [|exact Happr]. done.
Qed.

(** X19: resolution time and resolver are recorded exactly on the rows that
    are no longer PENDING, and this is kept by every sequence of requests. *)
Theorem resolution_stays_recorded (w0 w : world) :
  resolution_recorded w0 →
  reachable_faulty w0 w →
  resolution_recorded w.
Proof.
  intros H0. induction 1 as [|c faults w1 _ IH]; [exact H0|].
  destruct (handle_step faults c w1) as (_ & _ & Hrows & Hnew & _).
  intros rid r' Hr'.
  destruct (access_requests w1 !! rid) as [r|] eqn:Hr.
  - destruct (Hrows rid r Hr) as [?|(_ & st & admin & p & Hst & Hres & _)].
    + assert (r' = r) as -> by congruence. by apply (IH rid).
    + assert (r' = resolve_row st (clock w1) admin r) as -> by congruence.
      simpl. split; split; intros; done.
  - destruct (Hnew rid r' Hr' Hr) as (pid & ip & now & ->).
    simpl. done.
Qed.

(** No request ever writes [profiles] or changes what the identity
    store answers: roles cannot be changed through the two functions. *)
Lemma profiles_are_never_written (w0 w : world) :
  reachable_faulty w0 w →
  profiles w = profiles w0 ∧ auth w = auth w0.
Proof.
  induction 1 as [|c faults w1 _ [IHp IHa]]; [done|].
  destruct (handle_step faults c w1) as (Hauth & Hprofs & _).
  split; congruence.
Qed.

(** ** The functions as deployed *)

Lemma send_service_key {X} (q : query X) (w : world) :
  send ServiceKey q w = perform q w.
Proof. reflexivity. Qed.

Lemma credential_after_other {X} (cred : credential) (q : query X) (a : X) :
  is_sign_in q = false → credential_after cred q a = cred.
Proof. destruct q; simpl; [discriminate|reflexivity..]. Qed.

(** A request that never signs a user in is served with the service-role
    key throughout: row-level security does not come into it. *)
Lemma serve_keeps_service_key {R} (p : prog R) :
  keeps_service_key p →
  ∀ faults w, serve_with ServiceKey faults p w = exec_with faults p w.
Proof.
  induction 1 as [r|X q k Hq _ IH]; intros faults w; [reflexivity|].
  simpl.
  destruct (outage q) as [down|].
  - destruct faults as [|[] fs]; [| apply IH |];
      destruct (perform q w) as [a w'];
      rewrite (credential_after_other _ _ _ Hq); apply IH.
  - destruct (perform q w) as [a w'].
    rewrite (credential_after_other _ _ _ Hq). apply IH.
Qed.

Lemma resolve_keeps_service_key (authHeader : option string)
    (request_id action : string) :
  keeps_service_key (resolve authHeader request_id action).
Proof.
  unfold resolve.
  destruct authHeader as [header|]; [|constructor].
  destruct (decide (header = "")); [constructor|].
  constructor; [reflexivity|]. intros [user|?]; [|constructor].
  constructor; [reflexivity|]. intros [profileRole|?]; [|constructor].
  destruct (decide (profileRole ≠ "ADMIN")); [constructor|].
  destruct (decide (request_id = "" ∨ action ∉ ["APPROVE"; "DENY"]));
    [constructor|].
  constructor; [reflexivity|]. intros [[[? request_ip] request_st]|?];
    [|constructor].
  destruct (decide (request_st ≠ PENDING)); [constructor|].
  constructor; [reflexivity|]. intros now.
  constructor; [reflexivity|]. intros [?|?]; [|constructor].
  destruct (decide (action = "APPROVE")); [|constructor].
  constructor; [reflexivity|]. intros [?|?]; [constructor|].
  constructor; [reflexivity|]. intros ?. constructor.
Qed.

Lemma status_keeps_service_key (requestId : string) :
  keeps_service_key (request_status_of requestId).
Proof.
  unfold request_status_of. constructor; [reflexivity|].
  intros [[st resolved]|?]; constructor.
Qed.

Lemma status_by_text_keeps_service_key uuid_in (requestId : string) :
  keeps_service_key (status_by_text uuid_in requestId).
Proof.
  unfold status_by_text. destruct (uuid_in requestId);
    [apply status_keeps_service_key | constructor].
Qed.

(** What [secure-login] does once the sign-in has gone through: the profile
    select carries the user's token, is refused, and the handler answers
    404. *)
Lemma served_login_signed_in (faults : list bool) (w : world)
    (email password ip : string) (d : auth_data) :
  signInWithPassword (auth w) email password = Some d →
  head faults ≠ Some true →
  serve_with ServiceKey faults (login email password ip) w
  = (error_response 404 "Profile not found", w).
Proof.
  intros Hok Hfault. unfold login.
  destruct faults as [|[] fs]; [|done|]; simpl; rewrite Hok; simpl.
  - reflexivity.
  - destruct fs as [|[] fs']; reflexivity.
Qed.

Lemma served_login_runs (faults : list bool) (w : world)
    (email password ip : string) :
  serve_with ServiceKey faults (login email password ip) w
  = (error_response 401 "Invalid credentials", w)
  ∨ (∃ d, signInWithPassword (auth w) email password = Some d)
    ∧ serve_with ServiceKey faults (login email password ip) w
      = (error_response 404 "Profile not found", w).
Proof.
  destruct (decide (head faults = Some true)) as [Hf|Hf].
  - left. destruct faults as [|[] fs]; try discriminate. reflexivity.
  - destruct (signInWithPassword (auth w) email password) as [d|] eqn:Hok.
    + right. split; [eauto|]. by eapply served_login_signed_in.
    + left. unfold login.
      destruct faults as [|[] fs]; [|done|]; simpl; rewrite Hok; reflexivity.
Qed.

(** A refusal looks to the handler like an outage: every run of the login
    as deployed is one of its runs with the queries let through, under a
    fault plan that fails the profile select. *)
Lemma served_login_refines (faults : list bool) (w : world)
    (email password ip : string) :
  ∃ faults',
    serve_with ServiceKey faults (login email password ip) w
    = exec_with faults' (login email password ip) w.
Proof.
  destruct (decide (head faults = Some true)) as [Hf|Hf].
  - exists faults. destruct faults as [|[] fs]; try discriminate. reflexivity.
  - destruct (signInWithPassword (auth w) email password) as [d|] eqn:Hok.
    + exists [false; true]. rewrite (served_login_signed_in _ _ _ _ _ d) by done.
      unfold login. simpl. rewrite Hok. reflexivity.
    + exists []. unfold login.
      destruct faults as [|[] fs]; [|done|]; simpl; rewrite Hok; reflexivity.
Qed.

Lemma served_handle_refines (faults : list bool) (c : call) (w : world) :
  ∃ faults',
    serve_with ServiceKey faults (handle c) w = exec_with faults' (handle c) w.
Proof.
  destruct c as [email password ip|requestId|authHeader request_id action];
    cbn [handle].
  - apply served_login_refines.
  - exists faults. apply serve_keeps_service_key, status_keeps_service_key.
  - exists faults. apply serve_keeps_service_key, resolve_keeps_service_key.
Qed.

Lemma reachable_served_faulty (w0 w : world) :
  reachable_served w0 w → reachable_faulty w0 w.
Proof.
  induction 1 as [|c faults w _ IH]; [constructor|].
  destruct (served_handle_refines faults c w) as [faults' ->].
  by constructor.
Qed.

(** Served one after the other by the deployed functions, requests keep
    the table at one PENDING row per profile and address at most: the login
    is refused before it writes, and the resolver only takes rows out of
    PENDING. *)
Lemma served_requests_keep_one_pending (w0 w : world) :
  at_most_one_pending w0 →
  reachable_served w0 w →
  at_most_one_pending w.
Proof.
  intros H0. induction 1 as [|c faults w _ IH]; [exact H0|].
  destruct c as [email password ip|requestId|authHeader request_id action];
    cbn [handle].
  - by destruct (served_login_runs faults w email password ip) as [->|[_ ->]].
  - rewrite (serve_keeps_service_key _ (status_keeps_service_key _)).
    by rewrite status_query_frame.
  - rewrite (serve_keeps_service_key _ (resolve_keeps_service_key _ _ _)).
    pose proof (resolve_runs faults w authHeader request_id action) as Hrun.
    destruct (exec_with faults (resolve authHeader request_id action) w)
      as [resp w'].
    cbn [snd].
    inversion Hrun; subst; [exact IH| | |].
    + apply (at_most_one_pending_resolve w request_id DENIED (clock w)
               (user_id user)); [discriminate | exact IH].
    + eapply at_most_one_pending_ext;
        [|apply (at_most_one_pending_resolve w request_id APPROVED (clock w)
                   (user_id user)); [discriminate | exact IH]].
      reflexivity.
    + eapply at_most_one_pending_ext;
        [|apply (at_most_one_pending_resolve w request_id APPROVED (clock w)
                   (user_id user)); [discriminate | exact IH]].
      reflexivity.
Qed.

(** C3: a login of an ADMIN profile with correct credentials is not granted
    by the deployed function.  The sign-in leaves the user's session in the
    client, the profile select that follows carries the user's token, the
    policies of [profiles] refuse it, and the handler answers 404 "Profile
    not found"; this is so from every address and under every outage, and
    the store is left as it was. *)
Theorem served_admin_login_answers_404 (w : world) (email password ip : string)
    (d : auth_data) (p : profile_row) :
  signInWithPassword (auth w) email password = Some d →
  profiles w !! user_id (data_user d) = Some p →
  role p = "ADMIN" →
  serve (login email password ip) w
  = ({| http_status := 404;
        body := JObject [("error", JString "Profile not found")] |}, w)
  ∧ ∀ faults,
      ¬ is_granted (serve_with ServiceKey faults (login email password ip) w).1
      ∧ (serve_with ServiceKey faults (login email password ip) w).2 = w.
Proof.
  intros Hok _ _. split.
  - by apply (served_login_signed_in [] w email password ip d).
  - intros faults.
    destruct (served_login_runs faults w email password ip) as [->|[_ ->]];
      (split; [discriminate|reflexivity]).
Qed.

(** C4: a login of a CS profile from an address that is not allowed, with no
    PENDING request for it yet, is not deferred by the deployed function: it
    is answered 404 "Profile not found" for the same reason as an ADMIN's,
    no request is queued, and a second login is answered the same.  No
    outage changes that. *)
Theorem served_restricted_login_answers_404 (w : world)
    (email password ip : string) (d : auth_data) (p : profile_row) :
  signInWithPassword (auth w) email password = Some d →
  profiles w !! user_id (data_user d) = Some p →
  role p = "CS" →
  allowed_ips w !! ip = None →
  pending_rows (user_id (data_user d)) ip w = ∅ →
  serve (login email password ip) w
  = ({| http_status := 404;
        body := JObject [("error", JString "Profile not found")] |}, w)
  ∧ pending_rows (user_id (data_user d)) ip
      (serve (login email password ip) w).2 = ∅
  ∧ serve (login email password ip) (serve (login email password ip) w).2
    = ({| http_status := 404;
          body := JObject [("error", JString "Profile not found")] |}, w)
  ∧ ∀ faults,
      ¬ is_deferred (serve_with ServiceKey faults (login email password ip) w).1
      ∧ (serve_with ServiceKey faults (login email password ip) w).2 = w.
Proof.
  intros Hok _ _ _ Hnone.
  assert (Hrun : serve (login email password ip) w
                 = (error_response 404 "Profile not found", w))
    by (by apply (served_login_signed_in [] w email password ip d)).
  split; [exact Hrun|]. rewrite Hrun. cbn [snd].
  split; [exact Hnone|]. split; [exact Hrun|].
  intros faults.
  destruct (served_login_runs faults w email password ip) as [->|[_ ->]];
    (split; [discriminate|reflexivity]).
Qed.

(** C6: once an ADMIN has approved a PENDING request, the row is APPROVED
    and the address of the request is in [allowed_ips]: the resolver never
    signs a user in and writes with the service-role key.  The login of the
    requesting profile from that address that follows is still answered 404
    "Profile not found" by the deployed function, which never gets to read
    [allowed_ips]. *)
Theorem served_login_after_approval_answers_404 (w : world) (header : string)
    (admin : auth_user) (rid : uuid) (r : access_request_row)
    (email password : string) (d : auth_data) (p : profile_row) :
  privileged w header admin →
  rid ≠ "" →
  access_requests w !! rid = Some r →
  status r = PENDING →
  signInWithPassword (auth w) email password = Some d →
  user_id (data_user d) = profile_id r →
  profiles w !! profile_id r = Some p →
  role p = "ADMIN" ∨ role p = "CS" →
  let run := serve (resolve (Some header) rid "APPROVE") w in
  http_status run.1 = 200
  ∧ field "success" run.1 = Some (JBool true)
  ∧ status <$> access_requests run.2 !! rid = Some APPROVED
  ∧ is_Some (allowed_ips run.2 !! ip_address r)
  ∧ serve (login email password (ip_address r)) run.2
    = ({| http_status := 404;
          body := JObject [("error", JString "Profile not found")] |}, run.2)
  ∧ ∀ faults,
      ¬ is_granted
          (serve_with ServiceKey faults
             (login email password (ip_address r)) run.2).1.
Proof.
  intros Hadmin Hrid Hrow Hst Hok _ _ _ run. subst run.
  replace (serve (resolve (Some header) rid "APPROVE") w)
    with (exec_with [false; false; false; false]
            (resolve (Some header) rid "APPROVE") w)
    by (unfold serve;
        rewrite (serve_keeps_service_key _ (resolve_keeps_service_key _ _ _));
        apply (exec_with_no_fault 4)).
  rewrite (resolve_approve_run w header admin rid r Hadmin Hrid Hrow [] Hst).
  cbn [fst snd].
  set (w' := match allowed_ips w !! ip_address r with
             | Some _ => _ | None => _ end).
  assert (Hauth : auth w' = auth w)
    by (subst w'; destruct (allowed_ips w !! ip_address r); reflexivity).
  assert (Hreq : access_requests w'
                 = access_requests (resolved_world w rid APPROVED admin))
    by (subst w'; destruct (allowed_ips w !! ip_address r); reflexivity).
  assert (Hlisted : is_Some (allowed_ips w' !! ip_address r)).
  { subst w'. destruct (allowed_ips w !! ip_address r) eqn:Hip.
    - cbn [log_error resolved_world set_access_requests allowed_ips].
      rewrite Hip; eauto.
    - cbn [listed_world allowed_ips set_allowed_ips].
      rewrite lookup_insert_eq; eauto. }
  split; [reflexivity|]. split; [reflexivity|]. split.
  { rewrite Hreq. cbn [resolved_world access_requests set_access_requests].
    rewrite lookup_alter_eq, Hrow. reflexivity. }
  split; [exact Hlisted|]. clearbody w'. split.
  - apply (served_login_signed_in [] w' email password (ip_address r) d);
      [by rewrite Hauth | done].
  - intros faults.
    destruct (served_login_runs faults w' email password (ip_address r))
      as [->|[_ ->]]; discriminate.
Qed.


(** C9: the status query is a read.  For every text in the place of the
    request id, the deployed function answers 200 with the status
    ("PENDING", "APPROVED" or "DENIED") and the resolution time of the row
    whose id the text spells, and 404 "Request not found" when the text
    spells no uuid or no row has that id; the store, so every request and
    every allowed address, is left as it was, also under an outage. *)
Theorem status_query_reads_one_row (uuid_in : string → option uuid)
    (w : world) (requestId : string) :
  serve (status_by_text uuid_in requestId) w
  = (match uuid_in requestId ≫= (λ id, access_requests w !! id) with
     | Some r =>
         {| http_status := 200;
            body := JObject
              [("status",
                JString match status r with
                        | PENDING => "PENDING"
                        | APPROVED => "APPROVED"
                        | DENIED => "DENIED"
                        end);
               ("resolved_at",
                match resolved_at r with
                | Some t => JNumber t
                | None => JNull
                end)] |}
     | None =>
         {| http_status := 404;
            body := JObject [("error", JString "Request not found")] |}
     end, w)
  ∧ ∀ faults,
      (serve_with ServiceKey faults (status_by_text uuid_in requestId) w).2 = w.
Proof.
  split.
  - unfold serve.
    rewrite (serve_keeps_service_key _
               (status_by_text_keeps_service_key uuid_in requestId)).
    unfold status_by_text. destruct (uuid_in requestId) as [id|]; [|reflexivity].
    change (exec_with [] ?q ?v) with (exec q v).
    cbn [mbind option_bind]. unfold request_status_of. run_query.
    destruct (access_requests w !! id) as [r|]; [|reflexivity].
    cbn [fmap option_fmap option_map of_lookup].
    destruct r as [? ? [] ? [?|] ?]; reflexivity.
  - intros faults.
    rewrite (serve_keeps_service_key _
               (status_by_text_keeps_service_key uuid_in requestId)).
    unfold status_by_text. destruct (uuid_in requestId) as [id|]; [|reflexivity].
    unfold request_status_of. simpl.
    destruct faults as [|[] fs];
      destruct (access_requests w !! id) as [r|]; reflexivity.
Qed.

(** X3: as deployed, a login whose credentials the identity store accepts is
    answered 404 "Profile not found" whatever the role of the profile, the
    client address and the three tables are, so also for a CS profile at an
    allowed address; under any outage the answer is that or 401 "Invalid
    credentials", and nothing is ever written. *)
Theorem served_login_answers_404 (w : world) (email password ip : string)
    (d : auth_data) :
  signInWithPassword (auth w) email password = Some d →
  (∀ profs ips reqs,
     let w' := set_profiles profs
                 (set_allowed_ips ips (set_access_requests reqs w)) in
     serve (login email password ip) w'
     = ({| http_status := 404;
           body := JObject [("error", JString "Profile not found")] |}, w'))
  ∧ ∀ faults,
      (serve_with ServiceKey faults (login email password ip) w).2 = w
      ∧ ((serve_with ServiceKey faults (login email password ip) w).1
         = {| http_status := 404;
              body := JObject [("error", JString "Profile not found")] |}
         ∨ (serve_with ServiceKey faults (login email password ip) w).1
           = {| http_status := 401;
                body := JObject [("error", JString "Invalid credentials")] |}).
Proof.
  intros Hok. split.
  - intros profs ips reqs w'.
    by apply (served_login_signed_in [] w' email password ip d).
  - intros faults.
    destruct (served_login_runs faults w email password ip) as [->|[_ ->]];
      (split; [reflexivity|]); [by right|by left].
Qed.

(** X31: a poll after the resolution reports it.  Once an ADMIN has approved
    or denied a PENDING request, the status query for a text that spells the
    id of the request is answered 200 with status "APPROVED" or "DENIED" and
    the time of the resolution. *)
Theorem status_after_resolution (uuid_in : string → option uuid) (w : world)
    (header : string) (admin : auth_user) (rid : uuid)
    (r : access_request_row) (action text : string) :
  privileged w header admin →
  rid ≠ "" →
  access_requests w !! rid = Some r →
  status r = PENDING →
  action = "APPROVE" ∨ action = "DENY" →
  uuid_in text = Some rid →
  let w' := (serve (resolve (Some header) rid action) w).2 in
  serve (status_by_text uuid_in text) w'
  = ({| http_status := 200;
        body := JObject
          [("status",
            JString (if decide (action = "APPROVE") then "APPROVED"
                     else "DENIED"));
           ("resolved_at", JNumber (clock w))] |}, w').
Proof.
  intros Hadmin Hrid Hrow Hst Hact Htext w'.
  assert (Hrow' : access_requests w' !! rid
    = Some (resolve_row (if decide (action = "APPROVE") then APPROVED
                         else DENIED) (clock w) (user_id admin) r)).
  { subst w'. unfold serve.
    rewrite (serve_keeps_service_key _ (resolve_keeps_service_key _ _ _)).
    change (exec_with [] ?q ?v) with (exec q v).
    destruct Hact as [-> | ->].
    - rewrite <- (exec_with_no_fault 4). cbn [replicate].
      rewrite (resolve_approve_run w header admin rid r Hadmin Hrid Hrow []
                 Hst).
      cbn [snd]. rewrite decide_True by reflexivity.
      destruct (allowed_ips w !! ip_address r);
        cbn [log_error listed_world resolved_world access_requests
             set_access_requests set_allowed_ips];
        rewrite lookup_alter_eq, Hrow; reflexivity.
    - rewrite (resolve_deny_run w header admin Hadmin rid r Hrid Hrow Hst).
      cbn [snd resolved_world access_requests set_access_requests].
      rewrite decide_False by discriminate.
      rewrite lookup_alter_eq, Hrow. reflexivity. }
  clearbody w'. unfold serve.
  rewrite (serve_keeps_service_key _
             (status_by_text_keeps_service_key uuid_in text)).
  unfold status_by_text. rewrite Htext.
  change (exec_with [] ?q ?v) with (exec q v).
  unfold request_status_of. run_query. rewrite Hrow'.
  cbn [fmap option_fmap option_map of_lookup resolve_row status resolved_at].
  destruct Hact as [-> | ->].
  - rewrite !decide_True by reflexivity. reflexivity.
  - rewrite !decide_False by discriminate. reflexivity.
Qed.

(** X32: the guard against resolving twice is a check followed by a write
    that is keyed by the id alone.  When an approval and a denial of one
    PENDING request overlap, both pass the guard and both are answered 200;
    the denial, written last, leaves the request DENIED while the address
    that the approval listed stays in [allowed_ips], with no APPROVED
    request behind it. *)
Theorem overlapping_resolutions_both_succeed :
  let approve := resolve (Some "Bearer tok-admin") "0" "APPROVE" in
  let deny := resolve (Some "Bearer tok-admin") "0" "DENY" in
  let run := run_schedule [0; 0; 0; 1; 1; 1; 0; 0; 0; 1; 1]
               [approve; deny] Demo.w1 in
  status <$> access_requests Demo.w1 !! "0" = Some PENDING
  ∧ run.1 = [Ret (resolved_ok "APPROVE"); Ret (resolved_ok "DENY")]
  ∧ status <$> access_requests run.2 !! "0" = Some DENIED
  ∧ is_Some (allowed_ips run.2 !! "10.0.0.5")
  ∧ ¬ approved_by_admin run.2 "10.0.0.5".
Proof.
  intros approve deny run.
  assert (Hrows : access_requests run.2
    = {[ "0" := resolve_row DENIED 7 "u-admin"
                  (new_request "u-cs" "10.0.0.5" 7) ]})
    by (vm_compute; reflexivity).
  split; [vm_compute; reflexivity|]. split; [vm_compute; reflexivity|].
  split; [rewrite Hrows, lookup_singleton_eq; reflexivity|].
  split; [vm_compute; eexists; reflexivity|].
  intros (rid & r & admin & p & Hr & _ & Hst & _).
  rewrite Hrows in Hr. apply lookup_singleton_Some in Hr as [_ <-].
  discriminate.
Qed.

(** ** Strings *)

Lemma string_app_cons (c : ascii) (a b : string) :
  String c a ++ b = String c (a ++ b).
Proof. reflexivity. Qed.

Lemma string_app_nil_l (b : string) : "" ++ b = b.
Proof. reflexivity. Qed.

Lemma string_app_assoc (a b c : string) : (a ++ b) ++ c = a ++ (b ++ c).
Proof.
  induction a as [|x a IH]; [done|].
  rewrite !string_app_cons. by f_equal.
Qed.

Lemma string_app_nil_r (a : string) : a ++ "" = a.
Proof.
  induction a as [|x a IH]; [done|]. rewrite string_app_cons. by f_equal.
Qed.

Lemma string_length_app (a b : string) :
  String.length (a ++ b) = (String.length a + String.length b)%nat.
Proof.
  induction a as [|x a IH]; [done|]. rewrite string_app_cons. simpl. by f_equal.
Qed.

Lemma prefix_cons (c c' : ascii) (p s : string) :
  String.prefix (String c p) (String c' s)
  = if decide (c = c') then String.prefix p s else false.
Proof.
  simpl. destruct (ascii_dec c c'); case_decide; done.
Qed.

Lemma prefix_app (p t : string) : String.prefix p (p ++ t) = true.
Proof.
  induction p as [|c p IH]; [by destruct t|].
  rewrite string_app_cons, prefix_cons. by rewrite decide_True.
Qed.

Lemma prefix_split (p s : string) :
  String.prefix p s = true → ∃ t, s = p ++ t.
Proof.
  revert s. induction p as [|c p IH]; intros s Hp; [by exists s|].
  destruct s as [|c' s]; [discriminate|].
  rewrite prefix_cons in Hp. case_decide; [subst c'|discriminate].
  destruct (IH s Hp) as [t ->]. by exists t.
Qed.

Lemma prefix_long (p s t : string) :
  (String.length p ≤ String.length s)%nat →
  String.prefix p (s ++ t) = String.prefix p s.
Proof.
  revert s. induction p as [|c p IH]; intros s Hlen.
  - by destruct s, t.
  - destruct s as [|c' s]; simpl in Hlen; [lia|].
    rewrite string_app_cons, !prefix_cons. case_decide; [|done].
    apply IH. lia.
Qed.

Lemma includes_cons (pat : string) (c : ascii) (s : string) :
  includes pat (String c s) = String.prefix pat (String c s) || includes pat s.
Proof. reflexivity. Qed.

(** *** Splitting *)

Lemma split_go_skip (sep x piece s : string) :
  split_go sep (String.length x) piece (x ++ s) = split_go sep 0 piece s.
Proof.
  induction x as [|c x IH]; [done|].
  rewrite string_app_cons. simpl. exact IH.
Qed.

Lemma split_go_cons (sep piece : string) (c : ascii) (rest : string) :
  split_go sep 0 piece (String c rest)
  = if String.prefix sep (String c rest)
    then piece :: split_go sep (String.length sep - 1) "" rest
    else split_go sep 0 (piece ++ String c "") rest.
Proof. reflexivity. Qed.

Lemma split_go_match (sep piece b : string) :
  sep ≠ "" →
  split_go sep 0 piece (sep ++ b) = piece :: split_go sep 0 "" b.
Proof.
  intros Hsep. destruct sep as [|c sep]; [done|].
  rewrite string_app_cons, split_go_cons.
  rewrite <- string_app_cons, prefix_app.
  replace (String.length (String c sep) - 1)%nat with (String.length sep)
    by (simpl; lia).
  by rewrite split_go_skip.
Qed.

Lemma split_go_pass (sep piece : string) (c : ascii) (rest : string) :
  String.prefix sep (String c rest) = false →
  split_go sep 0 piece (String c rest)
  = split_go sep 0 (piece ++ String c "") rest.
Proof. intros Hp. by rewrite split_go_cons, Hp. Qed.

Lemma split_go_nonempty (sep : string) (n : nat) (piece s : string) :
  split_go sep n piece s ≠ [].
Proof.
  revert n piece. induction s as [|c s IH]; intros n piece; [done|].
  destruct n; [|apply IH].
  rewrite split_go_cons.
  destruct (String.prefix sep (String c s)); [done|apply IH].
Qed.

Lemma join_cons (sep piece : string) (l : list string) :
  l ≠ [] → join sep (piece :: l) = piece ++ sep ++ join sep l.
Proof. destruct l; done. Qed.

Lemma join_split_go (sep : string) (n : nat) :
  sep ≠ "" →
  ∀ s piece, (String.length s ≤ n)%nat →
    join sep (split_go sep 0 piece s) = piece ++ s.
Proof.
  intros Hsep. induction n as [|n IH]; intros s piece Hlen.
  - destruct s; simpl in Hlen; [|lia]. simpl. by rewrite string_app_nil_r.
  - destruct s as [|c s]; [simpl; by rewrite string_app_nil_r|].
    destruct (String.prefix sep (String c s)) eqn:Hp.
    + destruct (prefix_split _ _ Hp) as [b Hb]. rewrite Hb.
      rewrite split_go_match by exact Hsep.
      rewrite join_cons by apply split_go_nonempty.
      rewrite IH; [done|].
      apply (f_equal String.length) in Hb.
      rewrite string_length_app in Hb. simpl in Hb, Hlen.
      destruct sep; [done|]. simpl in Hb. lia.
    + rewrite split_go_pass by exact Hp.
      rewrite IH by (simpl in Hlen; lia).
      by rewrite string_app_assoc.
Qed.

Lemma split_go_absent (sep : string) :
  ∀ s piece, includes sep s = false → split_go sep 0 piece s = [piece ++ s].
Proof.
  induction s as [|c s IH]; intros piece Hno.
  - simpl. by rewrite string_app_nil_r.
  - rewrite includes_cons in Hno. apply orb_false_iff in Hno as [Hp Hrest].
    rewrite split_go_pass by exact Hp. rewrite IH by exact Hrest.
    by rewrite string_app_assoc.
Qed.

Lemma split_go_first (sep_init : string) (last : ascii) (b : string) :
  ∀ a piece,
    includes (sep_init ++ String last "") (a ++ sep_init) = false →
    split_go (sep_init ++ String last "") 0 piece
      (a ++ (sep_init ++ String last "") ++ b)
    = (piece ++ a) :: split_go (sep_init ++ String last "") 0 "" b.
Proof.
  set (sep := sep_init ++ String last "").
  assert (Hsep : sep ≠ "") by (subst sep; by destruct sep_init).
  induction a as [|c a IH]; intros piece Hno.
  - rewrite string_app_nil_l, split_go_match by exact Hsep.
    by rewrite string_app_nil_r.
  - rewrite string_app_cons in Hno. rewrite includes_cons in Hno.
    apply orb_false_iff in Hno as [Hp Hrest].
    rewrite string_app_cons.
    rewrite split_go_pass.
    + rewrite IH by exact Hrest. by rewrite string_app_assoc.
    + rewrite <- Hp. subst sep.
      rewrite <- (string_app_cons c a), <- string_app_assoc.
      rewrite <- (string_app_assoc (String c a) sep_init).
      rewrite string_app_assoc.
      apply prefix_long.
      rewrite !string_length_app. simpl. rewrite ?string_length_app. lia.
Qed.

Lemma includes_split_length (sep : string) :
  sep ≠ "" →
  ∀ s piece, includes sep s = true → (2 ≤ List.length (split_go sep 0 piece s))%nat.
Proof.
  intros Hsep. induction s as [|c s IH]; intros piece Hin.
  - destruct sep; done.
  - rewrite includes_cons in Hin.
    destruct (String.prefix sep (String c s)) eqn:Hp.
    + destruct (prefix_split _ _ Hp) as [b ->].
      rewrite split_go_match by exact Hsep.
      pose proof (split_go_nonempty sep 0 "" b).
      destruct (split_go sep 0 "" b); [done|]. simpl. lia.
    + rewrite split_go_pass by exact Hp. apply IH. exact Hin.
Qed.

(** *** Trimming *)

Lemma trim_end_cons (c : ascii) (rest : string) :
  trim_end (String c rest)
  = match trim_end rest with
    | EmptyString => if is_space c then EmptyString else String c EmptyString
    | kept => String c kept
    end.
Proof. reflexivity. Qed.

Lemma trim_start_head (s : string) (c : ascii) (t : string) :
  trim_start s = String c t → is_space c = false.
Proof.
  induction s as [|x s IH]; [discriminate|]. simpl.
  destruct (is_space x) eqn:Hx; [exact IH|]. intros [= <- _]. exact Hx.
Qed.

Lemma trim_end_head (s : string) (c : ascii) (t : string) :
  trim_end s = String c t → ∃ rest, s = String c rest.
Proof.
  destruct s as [|x s]; [discriminate|]. rewrite trim_end_cons.
  destruct (trim_end s); [destruct (is_space x)|];
    intros [= <- _]; eauto.
Qed.

Lemma trim_end_last (s t : string) (c : ascii) :
  trim_end s = t ++ String c "" → is_space c = false.
Proof.
  revert t. induction s as [|x s IH]; intros t.
  - by destruct t.
  - rewrite trim_end_cons. destruct (trim_end s) as [|y kept] eqn:Hk.
    + destruct (is_space x) eqn:Hx; [by destruct t|].
      destruct t as [|z t]; [by intros [= <-]|].
      rewrite string_app_cons. intros [= _ Ht]. by destruct t.
    + destruct t as [|z t].
      * rewrite string_app_nil_l. intros [= _ ?]. 
      * rewrite string_app_cons. intros [= _ Ht]. by eapply IH.
Qed.

(** *** Removing the first occurrence *)

Lemma remove_first_unfold (pat s : string) :
  remove_first pat s
  = if String.prefix pat s
    then String.substring (String.length pat)
           (String.length s - String.length pat) s
    else match s with
         | EmptyString => EmptyString
         | String c rest => String c (remove_first pat rest)
         end.
Proof. by destruct s. Qed.

Lemma substring_skip (p t : string) (n : nat) :
  String.substring (String.length p) n (p ++ t) = String.substring 0 n t.
Proof.
  induction p as [|c p IH]; [done|]. rewrite string_app_cons. exact IH.
Qed.

Lemma substring_all (t : string) :
  String.substring 0 (String.length t) t = t.
Proof. induction t as [|c t IH]; [done|]. simpl. by f_equal. Qed.

Lemma remove_first_prefix (pat t : string) : remove_first pat (pat ++ t) = t.
Proof.
  rewrite remove_first_unfold, prefix_app.
  rewrite string_length_app, substring_skip.
  replace (String.length pat + String.length t - String.length pat)%nat
    with (String.length t) by lia.
  apply substring_all.
Qed.

Lemma remove_first_absent (pat s : string) :
  includes pat s = false → remove_first pat s = s.
Proof.
  induction s as [|c s IH]; intros Hno.
  - change (includes pat "") with (String.prefix pat "" || false) in Hno.
    rewrite orb_false_r in Hno. by rewrite remove_first_unfold, Hno.
  - rewrite includes_cons in Hno. apply orb_false_iff in Hno as [Hp Hrest].
    rewrite remove_first_unfold, Hp. by rewrite IH.
Qed.

(** *** The client address *)

Lemma or_else_nonempty (a : option string) (b : string) :
  b ≠ "" → or_else a b ≠ "".
Proof.
  intros Hb. unfold or_else. destruct a as [s|]; [|done]. by case_decide.
Qed.

Lemma first_entry (a rest : string) :
  includes "," a = false →
  hd "" (split_on "," (a ++ "," ++ rest)) = a.
Proof.
  intros Hno. unfold split_on.
  pose proof (split_go_first "" ","%char rest a "") as Hfirst.
  rewrite !string_app_nil_l, string_app_nil_r in Hfirst.
  by rewrite Hfirst.
Qed.

Lemma only_entry (a : string) :
  includes "," a = false → hd "" (split_on "," a) = a.
Proof.
  intros Hno. unfold split_on. rewrite split_go_absent by exact Hno.
  by rewrite string_app_nil_l.
Qed.

Lemma trim_start_split (s : string) :
  ∃ l, s = l ++ trim_start s ∧ all_spaces l = true.
Proof.
  induction s as [|c s (l & Hl & Hsp)]; [by exists ""|].
  simpl. destruct (is_space c) eqn:Hc.
  - exists (String c l). rewrite string_app_cons, <- Hl.
    split; [done|]. simpl. by rewrite Hc.
  - by exists "".
Qed.

Lemma trim_end_split (s : string) :
  ∃ r, s = trim_end s ++ r ∧ all_spaces r = true.
Proof.
  induction s as [|c s (r & Hr & Hsp)]; [by exists ""|].
  rewrite trim_end_cons. destruct (trim_end s) as [|y kept].
  - rewrite string_app_nil_l in Hr. subst r.
    destruct (is_space c) eqn:Hc.
    + exists (String c s). split; [done|]. simpl. by rewrite Hc.
    + exists s. done.
  - exists r. rewrite string_app_cons, <- Hr. done.
Qed.

(** [split] and [join] are inverse for a non-empty separator: joining
    the pieces of a string with the separator gives the string back. *)
Lemma split_then_join (sep s : string) :
  sep ≠ "" → join sep (split_on sep s) = s.
Proof.
  intros Hsep. unfold split_on.
  rewrite (join_split_go sep (String.length s) Hsep s "") by lia.
  apply string_app_nil_l.
Qed.

Lemma second_piece_includes (sep s : string) :
  is_Some (split_on sep s !! 1) → includes sep s = true.
Proof.
  intros Hsome. destruct (includes sep s) eqn:Hin; [done|].
  unfold split_on in Hsome. rewrite split_go_absent in Hsome by exact Hin.
  by destruct Hsome.
Qed.

Lemma includes_app_l (pat a b : string) :
  includes pat (a ++ b) = false → includes pat a = false.
Proof.
  induction a as [|c a IH].
  - rewrite string_app_nil_l. intros Hno.
    change (includes pat "") with (String.prefix pat "" || false).
    rewrite orb_false_r. destruct pat as [|x pat]; [|done].
    by destruct b.
  - rewrite string_app_cons, !includes_cons.
    intros Hno. apply orb_false_iff in Hno as [Hp Hrest].
    rewrite (IH Hrest), orb_false_r.
    destruct (String.prefix pat (String c a)) eqn:Hpa; [|done].
    destruct (prefix_split _ _ Hpa) as [t Ht].
    rewrite <- string_app_cons, Ht, string_app_assoc, prefix_app in Hp. done.
Qed.

(** A string has a second piece exactly when it contains the
    separator, so [path.split('/status/')[1]] is defined whenever
    [path.includes('/status/')] holds. *)
Lemma includes_iff_second_piece (sep s : string) :
  sep ≠ "" →
  includes sep s = true ↔ is_Some (split_on sep s !! 1).
Proof.
  intros Hsep. split; [|apply second_piece_includes].
  intros Hin. apply lookup_lt_is_Some.
  by apply includes_split_length.
Qed.

(** [trim] removes white space at both ends and nothing else: the
    string is the trimmed string between two runs of white space, and the
    trimmed string neither starts nor ends with a white-space character. *)
Lemma trim_strips_both_ends (s : string) :
  (∃ l r, s = l ++ trim s ++ r
          ∧ all_spaces l = true ∧ all_spaces r = true)
  ∧ (∀ c t, trim s = String c t → is_space c = false)
  ∧ (∀ t c, trim s = t ++ String c "" → is_space c = false).
Proof.
  unfold trim. split; [|split].
  - destruct (trim_start_split s) as (l & Hl & Hlsp).
    destruct (trim_end_split (trim_start s)) as (r & Hr & Hrsp).
    exists l, r. rewrite <- Hr. done.
  - intros c t Ht. destruct (trim_end_head _ _ _ Ht) as [rest Hrest].
    by eapply trim_start_head.
  - intros t c. apply trim_end_last.
Qed.

(** X20: the client address is never the empty string: with no usable
    header it is the literal "unknown". *)
Theorem client_ip_never_empty (req : http_request) :
  client_ip req ≠ ""
  ∧ (x_forwarded_for req = None → x_real_ip req = None →
     client_ip req = "unknown").
Proof.
  split.
  - unfold client_ip. apply or_else_nonempty, or_else_nonempty. done.
  - intros Hxff Hxri. unfold client_ip. by rewrite Hxff, Hxri.
Qed.

(** X21: the client address is the first entry of x-forwarded-for, trimmed,
    whenever that entry is not blank; the entries after the first comma and
    the x-real-ip header are then not looked at. *)
Theorem client_ip_first_hop (req : http_request) (a rest : string) :
  x_forwarded_for req = Some (a ++ "," ++ rest)
  ∨ x_forwarded_for req = Some a →
  includes "," a = false →
  trim a ≠ "" →
  client_ip req = trim a.
Proof.
  intros Hxff Hno Hblank. unfold client_ip.
  destruct Hxff as [-> | ->]; cbn [fmap option_fmap option_map or_else];
    rewrite ?(first_entry a rest Hno), ?(only_entry a Hno);
    by rewrite decide_False.
Qed.

(** X22: a token is found in the Authorization header with or without the
    "Bearer " prefix: the prefix is cut off when it is there, and a header
    that does not contain it is taken as the token itself. *)
Theorem bearer_prefix_is_optional (w : world) (token : string)
    (request_id action : string) :
  includes "Bearer " token = false →
  token ≠ "" →
  remove_first "Bearer " ("Bearer " ++ token) = token
  ∧ remove_first "Bearer " token = token
  ∧ resolve (Some token) request_id action
    = resolve (Some ("Bearer " ++ token)) request_id action.
Proof.
  intros Hraw Hne.
  assert (H1 : remove_first "Bearer " ("Bearer " ++ token) = token)
    by apply remove_first_prefix.
  assert (H2 : remove_first "Bearer " token = token)
    by (by apply remove_first_absent).
  split; [exact H1|]. split; [exact H2|].
  assert (Hlong : "Bearer " ++ token ≠ "").
  { intros Heq. apply (f_equal String.length) in Heq.
    rewrite string_length_app in Heq. discriminate. }
  unfold resolve. rewrite H1, H2.
  rewrite (decide_False (P := token = "")) by exact Hne.
  rewrite (decide_False (P := "Bearer " ++ token = "")) by exact Hlong.
  reflexivity.
Qed.

(** ** The two functions behind HTTP *)

(** X23: requests that are not served send no query.  An OPTIONS request
    (the CORS preflight) is answered by both functions with status 200 and
    no body; any other method that is not served is answered 405 "Method not
    allowed": for [resolve-access-request] everything but POST, before the
    Authorization header is looked at, for [secure-login] everything but
    POST and a GET whose path contains "/status/".  The store is left as it
    was in every case. *)
Theorem dispatch_sends_no_query (req : http_request) (faults : list bool)
    (w : world) :
  (req_method req = "OPTIONS" →
   exec_with faults (secure_login_serve req) w = (preflight, w)
   ∧ sent_with faults (secure_login_serve req) w = []
   ∧ exec_with faults (resolve_serve req) w = (preflight, w)
   ∧ sent_with faults (resolve_serve req) w = [])
  ∧ (req_method req ≠ "OPTIONS" → req_method req ≠ "POST" →
     exec_with faults (resolve_serve req) w
       = (error_response 405 "Method not allowed", w)
     ∧ sent_with faults (resolve_serve req) w = []
     ∧ (req_method req ≠ "GET" ∨ includes "/status/" (req_path req) = false →
        exec_with faults (secure_login_serve req) w
          = (error_response 405 "Method not allowed", w)
        ∧ sent_with faults (secure_login_serve req) w = [])).
Proof.
  split.
  - intros Hm. unfold secure_login_serve, resolve_serve.
    rewrite !decide_True by exact Hm. done.
  - intros Hopt Hpost. split; [|split].
    + unfold resolve_serve. rewrite decide_False by exact Hopt.
      rewrite decide_True by exact Hpost. done.
    + unfold resolve_serve. rewrite decide_False by exact Hopt.
      rewrite decide_True by exact Hpost. done.
    + intros Hget. unfold secure_login_serve.
      rewrite decide_False by exact Hopt.
      rewrite decide_False by (intros [? ?]; destruct Hget; congruence).
      rewrite decide_False by exact Hpost. done.
Qed.

(** X24: the status route reads the request id as the text between the
    first "/status/" of the path and the next one, if any.  A GET for
    [base/status/id] is the status query for [id]; anything from a second
    "/status/" on is dropped. *)
Theorem status_route (req : http_request) (base id : string) :
  req_method req = "GET" →
  includes "/status/" (base ++ "/status") = false →
  includes "/status/" (id ++ "/status") = false →
  (req_path req = base ++ "/status/" ++ id →
   secure_login_serve req = request_status_of id)
  ∧ (∀ extra,
       req_path req = base ++ "/status/" ++ id ++ "/status/" ++ extra →
       secure_login_serve req = request_status_of id).
Proof.
  intros Hm Hbase Hid.
  assert (Hroute : ∀ tail pieces,
    req_path req = base ++ "/status/" ++ tail →
    split_on "/status/" tail = id :: pieces →
    secure_login_serve req = request_status_of id).
  { intros tail pieces Hpath Htail.
    assert (Hsplit : split_on "/status/" (req_path req) = base :: id :: pieces).
    { rewrite Hpath. unfold split_on in *.
      pose proof (split_go_first "/status" "/"%char tail base "" Hbase)
        as Hfirst.
      change ("/status" ++ "/") with "/status/" in Hfirst.
      rewrite Hfirst, string_app_nil_l, Htail. done. }
    assert (Hin : includes "/status/" (req_path req) = true)
      by (apply second_piece_includes; rewrite Hsplit; eauto).
    unfold secure_login_serve. rewrite Hm.
    rewrite decide_False by discriminate.
    rewrite decide_True by done.
    by rewrite Hsplit. }
  split.
  - intros Hpath. eapply Hroute; [exact Hpath|].
    unfold split_on. rewrite split_go_absent by (by eapply includes_app_l).
    by rewrite string_app_nil_l.
  - intros extra Hpath. eapply Hroute; [exact Hpath|].
    unfold split_on.
    pose proof (split_go_first "/status" "/"%char extra id "" Hid) as Hfirst.
    change ("/status" ++ "/") with "/status/" in Hfirst.
    rewrite Hfirst, string_app_nil_l. done.
Qed.

Lemma resolve_serve_parsed (req : http_request) (request_id action : string) :
  req_method req = "POST" →
  req_json req = Some (request_id, action) →
  resolve_serve req = resolve (authorization req) request_id action.
Proof.
  intros Hm Hjson. unfold resolve_serve, resolve. rewrite Hm, Hjson.
  rewrite decide_False by discriminate.
  rewrite decide_False by (intros Hne; by apply Hne).
  reflexivity.
Qed.

(** X25: a body that cannot be parsed is answered 500 "Internal server
    error" by the [catch] around the handler, which first writes one line to
    the error log; no table is touched.  [secure-login] reads the body first
    and answers before any remote call; [resolve-access-request] reads it
    only after the caller has been found to be an ADMIN, so a caller without
    a header still gets 401 and nothing is logged, and only an ADMIN sees the
    500. *)
Theorem unparseable_body (req : http_request) (w : world) :
  req_method req = "POST" →
  req_json req = None →
  (∀ faults,
     exec_with faults (secure_login_serve req) w
       = ({| http_status := 500;
             body := JObject [("error", JString "Internal server error")] |},
          log_error "Secure login error:" w)
     ∧ sent_with faults (secure_login_serve req) w
       = [Sent (ConsoleError "Secure login error:")])
  ∧ (∀ faults,
       (exec_with faults (resolve_serve req) w).2 = w
       ∨ (exec_with faults (resolve_serve req) w).2
         = log_error "Resolve access request error:" w)
  ∧ (authorization req = None →
     exec (resolve_serve req) w
     = (error_response 401 "Authorization required", w))
  ∧ (∀ header admin,
       authorization req = Some header →
       privileged w header admin →
       exec (resolve_serve req) w
       = ({| http_status := 500;
             body := JObject [("error", JString "Internal server error")] |},
          log_error "Resolve access request error:" w)).
Proof.
  intros Hm Hjson. split; [|split; [|split]].
  - intros faults. unfold secure_login_serve. rewrite Hm, Hjson.
    rewrite decide_False by discriminate.
    rewrite decide_False by (intros [? _]; discriminate).
    rewrite decide_True by reflexivity. done.
  - intros faults. unfold resolve_serve. rewrite Hm, Hjson.
    rewrite decide_False by discriminate.
    rewrite decide_False by (intros Hne; by apply Hne).
    destruct (authorization req) as [header|]; [|by left].
    destruct (decide (header = "")); [by left|].
    try_query; [|by left].
    destruct (getUser (auth w) _) as [user|]; [|by left].
    try_query; [|by left].
    destruct (role <$> profiles w !! user_id user) as [profileRole|];
      cbn [of_lookup]; [|by left].
    destruct (decide (profileRole ≠ "ADMIN")); [by left|by right].
  - intros Hnone. unfold resolve_serve. rewrite Hm, Hnone.
    rewrite decide_False by discriminate.
    rewrite decide_False by (intros Hne; by apply Hne). done.
  - intros header admin Hauth (Hhdr & Huser & Hrole).
    unfold resolve_serve. rewrite Hm, Hjson, Hauth.
    rewrite decide_False by discriminate.
    rewrite decide_False by (intros Hne; by apply Hne).
    rewrite decide_False by exact Hhdr.
    run_query. rewrite Huser. run_query. rewrite Hrole. cbn [of_lookup].
    rewrite decide_False by (intros Hne; by apply Hne). done.
Qed.

Lemma status_query_not_granted (faults : list bool) (w : world) (id : string) :
  ¬ is_granted (exec_with faults (request_status_of id) w).1.
Proof.
  unfold request_status_of. simpl.
  destruct faults as [|[] fs];
    destruct (access_requests w !! id) as [r|]; discriminate.
Qed.

(** X26: the gate, as seen from HTTP.  Whatever the request and the outages,
    [secure-login] answers success only to a POST whose body carries
    credentials the identity store accepts, for a profile that is ADMIN, or
    CS with the address derived from the request headers in [allowed_ips]. *)
Theorem secure_login_grants_only_admin_or_listed (req : http_request)
    (faults : list bool) (w : world) :
  is_granted (exec_with faults (secure_login_serve req) w).1 →
  req_method req = "POST"
  ∧ ∃ email password d p,
      req_json req = Some (email, password)
      ∧ signInWithPassword (auth w) email password = Some d
      ∧ profiles w !! user_id (data_user d) = Some p
      ∧ (role p = "ADMIN"
         ∨ (role p = "CS" ∧ is_Some (allowed_ips w !! client_ip req))).
Proof.
  unfold secure_login_serve.
  destruct (decide (req_method req = "OPTIONS")); [discriminate|].
  destruct (decide (req_method req = "GET"
                    ∧ includes "/status/" (req_path req) = true)).
  { intros Hg. by apply status_query_not_granted in Hg. }
  destruct (decide (req_method req = "POST")) as [Hm|]; [|discriminate].
  destruct (req_json req) as [[email password]|]; [|discriminate].
  intros Hg. split; [exact Hm|].
  pose proof (login_runs faults w email password (client_ip req)) as Hrun.
  destruct (exec_with faults (login email password (client_ip req)) w)
    as [r w'].
  cbn [fst] in Hg.
  inversion Hrun; subst;
    try (exfalso; revert Hg;
         first [apply not_granted_error | apply not_granted_pending]);
    exists email, password, d, p; eauto 10.
Qed.

(** ** The browser side *)

Lemma sign_in_granted (st : auth_state) (d : auth_data) (p : profile_view) :
  signIn st (secureSignIn (Some (granted d p)))
  = (JObject [("error", JNull)],
     {| st_user := Some (user_json (data_user d));
        st_profile := Some (profile_json p);
        st_loading := false;
        pendingApprovalRequestId := None |}).
Proof. reflexivity. Qed.

Lemma sign_in_pending (st : auth_state) (rid : string) :
  rid ≠ "" →
  signIn st (secureSignIn (Some (pending_approval rid)))
  = (JObject [("error",
               JObject [("message",
                         JString "Access request pending admin approval");
                        ("status", JString "PENDING_APPROVAL")]);
              ("status", JString "PENDING_APPROVAL")],
     {| st_user := None; st_profile := None; st_loading := false;
        pendingApprovalRequestId := Some (JString rid) |}).
Proof. intros Hrid. destruct rid; [done|]. vm_compute. reflexivity. Qed.

Lemma sign_in_pending_keeps_user_out (st : auth_state) (rid : string) :
  st_user st = None →
  st_user (signIn st (secureSignIn (Some (pending_approval rid)))).2 = None.
Proof. intros Hst. destruct rid; [exact Hst|]. reflexivity. Qed.

Lemma sign_in_error (st : auth_state) (code : nat) (msg : string) :
  In code [400; 401; 403; 404; 405; 500] →
  msg ≠ "" →
  signIn st (secureSignIn (Some (error_response code msg)))
  = (sign_in_failed (JString msg), st).
Proof.
  intros Hcode Hmsg. destruct msg; [done|].
  simpl in Hcode.
  destruct Hcode as [<-|[<-|[<-|[<-|[<-|[<-|[]]]]]]]; vm_compute; reflexivity.
Qed.

(** X28: the browser is signed in exactly when the function granted.
    Starting from a signed-out store, after [signIn] the store holds a user
    if and only if the login answered success; a deferred or rejected login,
    under any outage, leaves the store without a user. *)
Theorem browser_signed_in_iff_granted (faults : list bool) (w : world)
    (email password ip : string) (st : auth_state) :
  st_user st = None →
  is_Some (st_user (browser_sign_in faults w email password ip st).2)
  ↔ is_granted (exec_with faults (login email password ip) w).1.
Proof.
  intros Hout. unfold browser_sign_in.
  pose proof (login_runs faults w email password ip) as Hrun.
  destruct (exec_with faults (login email password ip) w) as [r w'].
  cbn [fst].
  inversion Hrun; subst;
    try (rewrite sign_in_error by (simpl; tauto || done);
         cbn [snd]; rewrite Hout; split;
         [by intros [? ?] | by intros ?%not_granted_error]);
    try (rewrite sign_in_pending_keeps_user_out by exact Hout; split;
         [by intros [? ?] | by intros ?%not_granted_pending]);
    rewrite sign_in_granted; cbn [snd st_user]; split; eauto; done.
Qed.

(** X29: what the browser keeps of a login that was not granted.  A
    deferred login with a non-empty request id clears user and profile and
    stores the request id for polling; a rejected login leaves the store as
    it was and hands the caller the error text of the function; an empty
    request id is not taken for a pending request. *)
Theorem browser_sign_in_not_granted (faults : list bool) (w : world)
    (email password ip : string) (st : auth_state) :
  let r := (exec_with faults (login email password ip) w).1 in
  let out := browser_sign_in faults w email password ip st in
  (∀ rid, r = pending_approval rid → rid ≠ "" →
     out.2 = {| st_user := None; st_profile := None; st_loading := false;
                pendingApprovalRequestId := Some (JString rid) |}
     ∧ member "status" out.1 = Some (JString "PENDING_APPROVAL"))
  ∧ (r = pending_approval "" →
     out = (sign_in_failed (JString "Authentication failed"), st))
  ∧ (¬ is_granted r → ¬ is_deferred r →
     ∃ msg, field "error" r = Some (JString msg)
            ∧ out = (sign_in_failed (JString msg), st)).
Proof.
  intros r out. subst r out. unfold browser_sign_in.
  pose proof (login_runs faults w email password ip) as Hrun.
  destruct (exec_with faults (login email password ip) w) as [r w'].
  cbn [fst]. split; [|split].
  - intros rid -> Hrid. by rewrite sign_in_pending.
  - intros ->. reflexivity.
  - intros Hng Hnd.
    inversion Hrun; subst;
      try (eexists; split; [reflexivity|];
           apply sign_in_error; [simpl; tauto | done]);
      try (exfalso; apply Hng; reflexivity);
      exfalso; apply Hnd; reflexivity.
Qed.

Lemma hasRole_of_role (p : json) (r required : string) :
  member "role" p = Some (JString r) →
  hasRole (Some p) required
  = if String.eqb required "CS"
    then String.eqb r "ADMIN" || String.eqb r "CS"
    else String.eqb r required.
Proof.
  intros Hrole. unfold hasRole.
  destruct p; try discriminate. cbn [truthy negb].
  unfold is_text. by rewrite Hrole.
Qed.

Lemma existsb_pointwise {A} (f g : A → bool) (l : list A) :
  (∀ x, f x = g x) → existsb f l = existsb g l.
Proof.
  intros Hfg. induction l as [|x l IH]; [done|]. simpl. by rewrite Hfg, IH.
Qed.

Lemma filter_sublist {A} (f g : A → bool) (l : list A) :
  (∀ x, f x = true → g x = true) →
  sublist (List.filter f l) (List.filter g l).
Proof.
  intros Hfg. induction l as [|x l IH]; [constructor|]. simpl.
  destruct (f x) eqn:Hf.
  - rewrite (Hfg x Hf). by constructor.
  - destruct (g x); [by constructor|exact IH].
Qed.

(** X30: the menu follows the role.  Nobody signed out sees an entry; a CS
    profile sees the entries that list CS, an ADMIN profile sees every entry
    that lists ADMIN or CS, so the CS menu is a sub-list of the ADMIN menu.
    With the sidebar's table, CS gets six entries and ADMIN all twelve. *)
Theorem menu_follows_role (admin cs : json) (items : list nav_item) :
  member "role" admin = Some (JString "ADMIN") →
  member "role" cs = Some (JString "CS") →
  filteredNavigation None items = []
  ∧ filteredNavigation (Some cs) items
    = List.filter (λ item, existsb (λ r, String.eqb r "CS") (nav_roles item))
        items
  ∧ filteredNavigation (Some admin) items
    = List.filter
        (λ item, existsb (λ r, String.eqb r "CS" || String.eqb r "ADMIN")
                   (nav_roles item)) items
  ∧ sublist (filteredNavigation (Some cs) items)
            (filteredNavigation (Some admin) items)
  ∧ nav_name <$> filteredNavigation (Some cs) navigation
    = ["Dashboard"; "Members"; "Check-In"; "POS & Inventory"; "Sales";
       "Shifts"]
  ∧ filteredNavigation (Some admin) navigation = navigation.
Proof.
  intros Hadmin Hcs.
  assert (Hrole_cs : ∀ r, hasRole (Some cs) r = String.eqb r "CS").
  { intros r. rewrite (hasRole_of_role cs "CS" r Hcs).
    destruct (String.eqb_spec r "CS") as [->|Hne]; [done|].
    destruct (String.eqb_spec "CS" r); congruence. }
  assert (Hrole_admin : ∀ r,
    hasRole (Some admin) r = String.eqb r "CS" || String.eqb r "ADMIN").
  { intros r. rewrite (hasRole_of_role admin "ADMIN" r Hadmin).
    destruct (String.eqb_spec r "CS") as [->|Hne]; [done|].
    rewrite orb_false_l. apply String.eqb_sym. }
  assert (Hcs_menu : ∀ l, filteredNavigation (Some cs) l
    = List.filter (λ item, existsb (λ r, String.eqb r "CS") (nav_roles item)) l).
  { intros l. unfold filteredNavigation. apply List.filter_ext. intros item.
    apply existsb_pointwise. intros r. apply Hrole_cs. }
  assert (Hadmin_menu : ∀ l, filteredNavigation (Some admin) l
    = List.filter
        (λ item, existsb (λ r, String.eqb r "CS" || String.eqb r "ADMIN")
                   (nav_roles item)) l).
  { intros l. unfold filteredNavigation. apply List.filter_ext. intros item.
    apply existsb_pointwise. intros r. apply Hrole_admin. }
  split; [|split; [apply Hcs_menu|split; [apply Hadmin_menu|split; [|split]]]].
  - unfold filteredNavigation. induction items as [|i l IH]; [done|].
    simpl. replace (existsb (hasRole None) (nav_roles i)) with false; [exact IH|].
    by induction (nav_roles i).
  - rewrite Hcs_menu, Hadmin_menu. apply filter_sublist. intros item.
    rewrite !existsb_exists. intros (r & Hin & Hr). exists r.
    by rewrite Hr.
  - rewrite Hcs_menu. reflexivity.
  - rewrite Hadmin_menu. reflexivity.
Qed.

(** ** The further statements at the demo deployments *)

Lemma login_grants_only_admin_or_listed_demo :
  is_granted (exec_with [] (login "admin@fmf.com" "password123" "unknown")
                Demo.w0).1
  ∧ ∃ d p,
      signInWithPassword (auth Demo.w0) "admin@fmf.com" "password123" = Some d
      ∧ profiles Demo.w0 !! user_id (data_user d) = Some p
      ∧ (role p = "ADMIN"
         ∨ (role p = "CS" ∧ is_Some (allowed_ips Demo.w0 !! "unknown"))).
Proof.
  assert (Hg : is_granted
            (exec_with [] (login "admin@fmf.com" "password123" "unknown")
               Demo.w0).1) by reflexivity.
  split; [exact Hg|].
  destruct (login_grants_only_admin_or_listed [] Demo.w0
              "admin@fmf.com" "password123" "unknown" Hg)
    as (d & p & Hok & Hprof & Hrole & _).
  exists d, p. split; [exact Hok|]. split; [exact Hprof|exact Hrole].
Defined.

Lemma demo_w2_listed : is_Some (allowed_ips Demo.w2 !! "10.0.0.5").
Proof. vm_compute. eexists. reflexivity. Defined.

Lemma login_profile_missing_demo :
  profiles Scenario.no_profiles !! "u-cs" = None
  ∧ exec (login "cs@fmf.com" "password123" "10.0.0.5") Scenario.no_profiles
    = (error_response 404 "Profile not found", Scenario.no_profiles).
Proof.
  split; [reflexivity|].
  apply (login_profile_missing Scenario.no_profiles
           "cs@fmf.com" "password123" "10.0.0.5" Demo.cs_data eq_refl).
  reflexivity.
Defined.

Lemma resolve_unauthenticated_demo :
  getUser (auth Demo.w1) (remove_first "Bearer " "Bearer stolen") = None
  ∧ exec_with [] (resolve None "0" "APPROVE") Demo.w1
    = (error_response 401 "Authorization required", Demo.w1)
  ∧ exec (resolve (Some "Bearer stolen") "0" "APPROVE") Demo.w1
    = (error_response 401 "Invalid authentication", Demo.w1).
Proof.
  split; [reflexivity|].
  destruct (resolve_unauthenticated Demo.w1 "0" "APPROVE") as [Hnone Hbad].
  split.
  - apply (Hnone None []). by left.
  - apply (Hbad "Bearer stolen"); [discriminate | reflexivity].
Defined.

Lemma resolve_requires_admin_demo :
  role <$> profiles Demo.w1 !! "u-cs" = Some "CS"
  ∧ exec (resolve (Some "Bearer tok-cs") "0" "APPROVE") Demo.w1
    = (error_response 403 "Admin access required", Demo.w1).
Proof.
  split; [vm_compute; reflexivity|].
  apply (resolve_requires_admin Demo.w1 "Bearer tok-cs" Demo.cs_user
           "0" "APPROVE");
    [discriminate | reflexivity | vm_compute; discriminate].
Defined.

Lemma resolve_bad_parameters_demo :
  privileged Demo.w1 "Bearer tok-admin" Demo.admin_user
  ∧ exec (resolve (Some "Bearer tok-admin") "0" "REVOKE") Demo.w1
    = (error_response 400 "Invalid request parameters", Demo.w1).
Proof.
  split; [exact (demo_admin_privileged Demo.w1 eq_refl eq_refl)|].
  apply (resolve_bad_parameters Demo.w1 "Bearer tok-admin" Demo.admin_user
           (demo_admin_privileged Demo.w1 eq_refl eq_refl) "0" "REVOKE").
  right. split; discriminate.
Defined.




Lemma demo_w1_row :
  access_requests Demo.w1 !! "0" = Some (new_request "u-cs" "10.0.0.5" 7).
Proof. vm_compute. reflexivity. Defined.

Lemma resolve_deny_effect_demo :
  access_requests Demo.w1 !! "0" = Some (new_request "u-cs" "10.0.0.5" 7)
  ∧ status <$> access_requests Scenario.denied !! "0" = Some DENIED
  ∧ allowed_ips Scenario.denied = allowed_ips Demo.w1.
Proof.
  split; [exact demo_w1_row|].
  destruct (resolve_deny_effect Demo.w1 "Bearer tok-admin" Demo.admin_user
              (demo_admin_privileged Demo.w1 eq_refl eq_refl)
              "0" (new_request "u-cs" "10.0.0.5" 7)
              ltac:(discriminate) demo_w1_row eq_refl)
    as (_ & Hrows & Hips & _).
  split; [|exact Hips].
  change (access_requests Scenario.denied)
    with (access_requests
            (exec (resolve (Some "Bearer tok-admin") "0" "DENY") Demo.w1).2).
  rewrite Hrows, lookup_insert_eq. reflexivity.
Defined.

Lemma resolve_writes_only_for_admin_on_pending_demo :
  (exec_with [] (resolve (Some "Bearer tok-admin") "0" "APPROVE") Demo.w1).2
    ≠ Demo.w1
  ∧ ∃ r, access_requests Demo.w1 !! "0" = Some r ∧ status r = PENDING.
Proof.
  assert (Hchanged :
    (exec_with [] (resolve (Some "Bearer tok-admin") "0" "APPROVE") Demo.w1).2
      ≠ Demo.w1).
  { intros Heq.
    apply (f_equal (λ w, bool_decide (is_Some (allowed_ips w !! "10.0.0.5"))))
      in Heq.
    vm_compute in Heq. discriminate. }
  split; [exact Hchanged|].
  destruct (resolve_writes_only_for_admin_on_pending [] Demo.w1
              (Some "Bearer tok-admin") "0" "APPROVE" Hchanged)
    as (header & user & r & _ & _ & Hrow & Hst & _).
  exists r. split; [exact Hrow | exact Hst].
Defined.

Lemma demo_w2_row :
  access_requests Demo.w2 !! "0"
  = Some (resolve_row APPROVED 7 "u-admin" (new_request "u-cs" "10.0.0.5" 7)).
Proof. vm_compute. reflexivity. Defined.

Lemma resolved_requests_are_final_demo :
  access_requests Demo.w2 !! "0"
  = Some (resolve_row APPROVED 7 "u-admin" (new_request "u-cs" "10.0.0.5" 7))
  ∧ access_requests
      (exec_with [] (resolve (Some "Bearer tok-admin") "0" "DENY") Demo.w2).2
      !! "0"
    = Some (resolve_row APPROVED 7 "u-admin"
              (new_request "u-cs" "10.0.0.5" 7)).
Proof.
  split; [exact demo_w2_row|].
  apply (resolved_requests_are_final Demo.w2 _ "0" _ demo_w2_row);
    [discriminate|].
  exact (faulty_call Demo.w2
           (PostResolve (Some "Bearer tok-admin") "0" "DENY") [] Demo.w2
           (faulty_start Demo.w2)).
Defined.

Lemma demo_w2_reachable : reachable_faulty Demo.w0 Demo.w2.
Proof.
  exact (faulty_call Demo.w0
           (PostResolve (Some "Bearer tok-admin") "0" "APPROVE") [] Demo.w1
           (faulty_call Demo.w0
              (PostSecureLogin "cs@fmf.com" "password123" "10.0.0.5") []
              Demo.w0 (faulty_start Demo.w0))).
Defined.

Lemma requests_are_never_deleted_demo :
  access_requests Demo.w1 !! "0" = Some (new_request "u-cs" "10.0.0.5" 7)
  ∧ ∃ r', access_requests Demo.w2 !! "0" = Some r'
          ∧ ip_address r' = "10.0.0.5".
Proof.
  split; [exact demo_w1_row|].
  destruct (requests_are_never_deleted Demo.w1 Demo.w2 "0" _ demo_w1_row
              (faulty_call Demo.w1
                 (PostResolve (Some "Bearer tok-admin") "0" "APPROVE") []
                 Demo.w1 (faulty_start Demo.w1)))
    as (r' & Hr' & _ & Hip & _).
  exists r'. split; [exact Hr' | exact Hip].
Defined.

Lemma listed_addresses_were_approved_demo :
  is_Some (allowed_ips Demo.w2 !! "10.0.0.5")
  ∧ (is_Some (allowed_ips Demo.w0 !! "10.0.0.5")
     ∨ approved_by_admin Demo.w2 "10.0.0.5").
Proof.
  split; [exact demo_w2_listed|].
  exact (listed_addresses_were_approved Demo.w0 Demo.w2 "10.0.0.5"
           demo_w2_reachable demo_w2_listed).
Defined.

Lemma demo_w0_recorded : resolution_recorded Demo.w0.
Proof. intros rid r Hr. vm_compute in Hr. discriminate. Defined.

Lemma resolution_stays_recorded_demo :
  resolution_recorded Demo.w0 ∧ resolution_recorded Demo.w2.
Proof.
  split; [exact demo_w0_recorded|].
  exact (resolution_stays_recorded Demo.w0 Demo.w2 demo_w0_recorded
           demo_w2_reachable).
Defined.

Lemma client_ip_first_hop_demo :
  x_forwarded_for Scenario.post_login = Some (" 10.0.0.5 " ++ "," ++ " 172.16.0.1")
  ∧ client_ip Scenario.post_login = "10.0.0.5".
Proof.
  split; [reflexivity|].
  apply (client_ip_first_hop Scenario.post_login " 10.0.0.5 " " 172.16.0.1");
    [left; reflexivity | reflexivity | vm_compute; discriminate].
Defined.

Lemma bearer_prefix_is_optional_demo :
  includes "Bearer " "tok-admin" = false
  ∧ resolve (Some "tok-admin") "0" "APPROVE"
    = resolve (Some ("Bearer " ++ "tok-admin")) "0" "APPROVE".
Proof.
  split; [reflexivity|].
  destruct (bearer_prefix_is_optional Demo.w0 "tok-admin" "0" "APPROVE"
              eq_refl ltac:(discriminate))
    as (_ & _ & Hsame).
  exact Hsame.
Defined.

Lemma dispatch_sends_no_query_demo :
  exec_with [] (secure_login_serve
                  (Scenario.with_method "OPTIONS" Scenario.post_login))
    Demo.w0 = (preflight, Demo.w0)
  ∧ exec_with [] (resolve_serve
                    (Scenario.with_method "DELETE" Scenario.post_login))
      Demo.w0 = (error_response 405 "Method not allowed", Demo.w0).
Proof.
  split.
  - destruct (dispatch_sends_no_query
                (Scenario.with_method "OPTIONS" Scenario.post_login)
                [] Demo.w0) as [Hopt _].
    destruct (Hopt eq_refl) as (Hrun & _). exact Hrun.
  - destruct (dispatch_sends_no_query
                (Scenario.with_method "DELETE" Scenario.post_login)
                [] Demo.w0) as [_ Hother].
    destruct (Hother ltac:(discriminate) ltac:(discriminate)) as (Hrun & _).
    exact Hrun.
Defined.

Lemma status_route_demo :
  req_path Scenario.get_status
  = "/functions/v1/secure-login" ++ "/status/" ++ "0"
  ∧ secure_login_serve Scenario.get_status = request_status_of "0".
Proof.
  split; [reflexivity|].
  destruct (status_route Scenario.get_status "/functions/v1/secure-login" "0"
              eq_refl eq_refl eq_refl) as [Hroute _].
  apply Hroute. reflexivity.
Defined.

Lemma unparseable_body_demo :
  req_json (Scenario.without_body Scenario.post_login) = None
  ∧ exec_with []
      (secure_login_serve (Scenario.without_body Scenario.post_login)) Demo.w0
    = (error_response 500 "Internal server error",
       log_error "Secure login error:" Demo.w0)
  ∧ console (exec_with []
      (secure_login_serve (Scenario.without_body Scenario.post_login))
      Demo.w0).2 = ["Secure login error:"]
  ∧ exec (resolve_serve (Scenario.without_body Scenario.post_login)) Demo.w0
    = (error_response 401 "Authorization required", Demo.w0).
Proof.
  split; [reflexivity|].
  destruct (unparseable_body (Scenario.without_body Scenario.post_login)
              Demo.w0 eq_refl eq_refl)
    as (Hlogin & _ & Hnone & _).
  destruct (Hlogin []) as [Hrun _].
  split; [exact Hrun|]. split; [rewrite Hrun; reflexivity|].
  apply Hnone; reflexivity.
Defined.

Lemma secure_login_grants_only_admin_or_listed_demo :
  is_granted (exec_with [] (secure_login_serve Scenario.post_login) Demo.w2).1
  ∧ req_method Scenario.post_login = "POST".
Proof.
  assert (Hg : is_granted
            (exec_with [] (secure_login_serve Scenario.post_login) Demo.w2).1)
    by (vm_compute; reflexivity).
  split; [exact Hg|].
  destruct (secure_login_grants_only_admin_or_listed Scenario.post_login []
              Demo.w2 Hg) as [Hm _].
  exact Hm.
Defined.

Lemma browser_signed_in_iff_granted_demo :
  st_user Scenario.signed_out = None
  ∧ is_Some (st_user (browser_sign_in [] Demo.w0
                        "admin@fmf.com" "password123" "unknown"
                        Scenario.signed_out).2)
  ∧ ¬ is_Some (st_user (browser_sign_in [] Demo.w0
                          "cs@fmf.com" "password123" "10.0.0.5"
                          Scenario.signed_out).2).
Proof.
  split; [reflexivity|]. split.
  - apply (browser_signed_in_iff_granted [] Demo.w0
             "admin@fmf.com" "password123" "unknown" Scenario.signed_out
             eq_refl).
    reflexivity.
  - intros Hin.
    apply (browser_signed_in_iff_granted [] Demo.w0
             "cs@fmf.com" "password123" "10.0.0.5" Scenario.signed_out
             eq_refl) in Hin.
    vm_compute in Hin. discriminate.
Defined.

Lemma browser_sign_in_not_granted_demo :
  (browser_sign_in [] Demo.w0 "cs@fmf.com" "password123" "10.0.0.5"
     Scenario.signed_out).2
  = {| st_user := None; st_profile := None; st_loading := false;
       pendingApprovalRequestId := Some (JString "0") |}
  ∧ ∃ msg,
      browser_sign_in [] Demo.w0 "cs@fmf.com" "letmein" "10.0.0.5"
        Scenario.signed_out
      = (sign_in_failed (JString msg), Scenario.signed_out).
Proof.
  split.
  - destruct (browser_sign_in_not_granted [] Demo.w0
                "cs@fmf.com" "password123" "10.0.0.5" Scenario.signed_out)
      as (Hpending & _).
    destruct (Hpending "0" eq_refl ltac:(discriminate)) as [Hst _].
    exact Hst.
  - destruct (browser_sign_in_not_granted [] Demo.w0
                "cs@fmf.com" "letmein" "10.0.0.5" Scenario.signed_out)
      as (_ & _ & Hrejected).
    destruct (Hrejected ltac:(discriminate) ltac:(discriminate))
      as (msg & _ & Hout).
    exists msg. exact Hout.
Defined.

Lemma menu_follows_role_demo :
  member "role" (profile_json (view_of Demo.cs_profile)) = Some (JString "CS")
  ∧ nav_name <$>
      filteredNavigation (Some (profile_json (view_of Demo.cs_profile)))
        navigation
    = ["Dashboard"; "Members"; "Check-In"; "POS & Inventory"; "Sales";
       "Shifts"].
Proof.
  split; [reflexivity|].
  destruct (menu_follows_role (profile_json (view_of Demo.admin_profile))
              (profile_json (view_of Demo.cs_profile)) navigation
              eq_refl eq_refl)
    as (_ & _ & _ & _ & Hcs & _).
  exact Hcs.
Defined.

(** ** The statements about the deployed functions at the demo deployments *)

Lemma served_admin_login_answers_404_demo :
  role <$> profiles Demo.w0 !! "u-admin" = Some "ADMIN"
  ∧ serve (login "admin@fmf.com" "password123" "unknown") Demo.w0
    = (error_response 404 "Profile not found", Demo.w0)
  ∧ exec (login "admin@fmf.com" "password123" "unknown") Demo.w0
    = (granted Demo.admin_data (view_of Demo.admin_profile), Demo.w0).
Proof.
  split; [vm_compute; reflexivity|]. split; [|reflexivity].
  apply (served_admin_login_answers_404 Demo.w0
           "admin@fmf.com" "password123" "unknown"
           Demo.admin_data Demo.admin_profile);
    [reflexivity | vm_compute; reflexivity | reflexivity].
Defined.

Lemma served_restricted_login_answers_404_demo :
  allowed_ips Demo.w0 !! "10.0.0.5" = None
  ∧ serve (login "cs@fmf.com" "password123" "10.0.0.5") Demo.w0
    = (error_response 404 "Profile not found", Demo.w0)
  ∧ access_requests
      (serve (login "cs@fmf.com" "password123" "10.0.0.5") Demo.w0).2 = ∅
  ∧ is_deferred
      (exec (login "cs@fmf.com" "password123" "10.0.0.5") Demo.w0).1.
Proof.
  split; [reflexivity|].
  destruct (served_restricted_login_answers_404 Demo.w0
              "cs@fmf.com" "password123" "10.0.0.5"
              Demo.cs_data Demo.cs_profile
              eq_refl ltac:(vm_compute; reflexivity) eq_refl eq_refl
              ltac:(vm_compute; reflexivity))
    as (Hrun & _).
  split; [exact Hrun|]. split; [rewrite Hrun; reflexivity|].
  vm_compute. reflexivity.
Defined.

Lemma served_login_after_approval_answers_404_demo :
  access_requests Demo.w1 !! "0" = Some (new_request "u-cs" "10.0.0.5" 7)
  ∧ (serve (resolve (Some "Bearer tok-admin") "0" "APPROVE") Demo.w1).2
    = Demo.w2
  ∧ is_Some (allowed_ips Demo.w2 !! "10.0.0.5")
  ∧ serve (login "cs@fmf.com" "password123" "10.0.0.5") Demo.w2
    = (error_response 404 "Profile not found", Demo.w2).
Proof.
  split; [exact demo_w1_row|]. split; [reflexivity|].
  destruct (served_login_after_approval_answers_404 Demo.w1
              "Bearer tok-admin" Demo.admin_user "0"
              (new_request "u-cs" "10.0.0.5" 7)
              "cs@fmf.com" "password123" Demo.cs_data Demo.cs_profile
              (demo_admin_privileged Demo.w1 eq_refl eq_refl)
              ltac:(discriminate) demo_w1_row eq_refl eq_refl eq_refl
              ltac:(vm_compute; reflexivity) (or_intror eq_refl))
    as (_ & _ & _ & Hlisted & Hlogin & _).
  split; [exact Hlisted | exact Hlogin].
Defined.


Lemma status_query_reads_one_row_demo :
  serve (status_by_text Scenario.uuid_in "0") Demo.w1
  = (respond 200 [("status", JString "PENDING"); ("resolved_at", JNull)],
     Demo.w1)
  ∧ serve (status_by_text Scenario.uuid_in "{0}") Demo.w2
    = (respond 200 [("status", JString "APPROVED");
                    ("resolved_at", JNumber 7)], Demo.w2)
  ∧ serve (status_by_text Scenario.uuid_in "7") Demo.w2
    = (error_response 404 "Request not found", Demo.w2)
  ∧ serve (status_by_text Scenario.uuid_in "") Demo.w2
    = (error_response 404 "Request not found", Demo.w2).
Proof.
  split; [|split; [|split]].
  - exact (proj1 (status_query_reads_one_row Scenario.uuid_in Demo.w1 "0")).
  - exact (proj1 (status_query_reads_one_row Scenario.uuid_in Demo.w2 "{0}")).
  - exact (proj1 (status_query_reads_one_row Scenario.uuid_in Demo.w2 "7")).
  - exact (proj1 (status_query_reads_one_row Scenario.uuid_in Demo.w2 "")).
Defined.

Lemma served_login_answers_404_demo :
  role <$> profiles Demo.w2 !! "u-cs" = Some "CS"
  ∧ is_Some (allowed_ips Demo.w2 !! "10.0.0.5")
  ∧ serve (login "cs@fmf.com" "password123" "10.0.0.5") Demo.w2
    = (error_response 404 "Profile not found", Demo.w2).
Proof.
  split; [vm_compute; reflexivity|]. split; [exact demo_w2_listed|].
  destruct (served_login_answers_404 Demo.w2
              "cs@fmf.com" "password123" "10.0.0.5" Demo.cs_data eq_refl)
    as [Hany _].
  exact (Hany (profiles Demo.w2) (allowed_ips Demo.w2)
           (access_requests Demo.w2)).
Defined.

Lemma status_after_resolution_demo :
  access_requests Demo.w1 !! "0" = Some (new_request "u-cs" "10.0.0.5" 7)
  ∧ Scenario.uuid_in "{0}" = Some "0"
  ∧ (serve (status_by_text Scenario.uuid_in "{0}") Scenario.denied).1
    = respond 200 [("status", JString "DENIED"); ("resolved_at", JNumber 7)].
Proof.
  split; [exact demo_w1_row|]. split; [reflexivity|].
  exact (f_equal fst
           (status_after_resolution Scenario.uuid_in Demo.w1
              "Bearer tok-admin" Demo.admin_user "0"
              (new_request "u-cs" "10.0.0.5" 7) "DENY" "{0}"
              (demo_admin_privileged Demo.w1 eq_refl eq_refl)
              ltac:(discriminate) demo_w1_row eq_refl (or_intror eq_refl)
              eq_refl)).
Defined.
